(** * Sistema bancario: deposits, withdrawals, reports and account iteration

    A shallow embedding of [desafio.py].  Python objects that are mutated
    in place (the statement list [extrato], the account list [contas], the
    iterator and generator instances) live in a store indexed by
    references; every function is a computation over a [World] holding
    that store, the console and the clock.  Amounts are exact integers
    ([Z], Python's [int]); the parsing of console text into numbers, done
    by [main], is not part of the embedding. *)

From Stdlib Require Import ZArith Lia.
From stdpp Require Import base gmap strings list fin_maps.

Local Open Scope Z_scope.

(** ** Values and objects *)

Definition Ref := positive.

(** A statement entry, the tuple [(tipo, valor)]. *)
Definition Tupla : Type := string * Z.

(** A user is a dict of four text fields; an account is a dict whose
    values are texts, numbers, the owner's dict or a list reference. *)
Inductive Valor :=
| VTexto (s : string)
| VNumero (n : Z)
| VUsuario (u : gmap string string)
| VLista (r : Ref).

(** The frame of a [gerar_relatorio] generator: suspended inside the
    [for] loop with the list cursor at [cursor], or returned. *)
Inductive Gerador :=
| GSuspenso (transacoes : Ref) (tipo : option string) (cursor : nat)
| GTerminado.

Inductive Objeto :=
| OExtrato (ts : list Tupla)
| OUsuarios (us : list (gmap string string))
| OContas (cs : list (gmap string Valor))
| OContasIterator (_contas : Ref) (_indice : nat)
| OGerador (g : Gerador).

(** ** Console lines and exceptions *)

(** One constructor per [print] of the source; [LPrompt] is the text
    [input] writes before reading, [LTransacao] the audit line of the
    decorator. *)
Inductive Linha :=
| LDepositoOk (valor : Z)      (* Deposito de R$ {valor:.2f} realizado com sucesso! *)
| LDepositoInvalido            (* Operacao falhou! O valor informado e invalido. *)
| LSaldoInsuficiente           (* Saldo insuficiente. *)
| LExcedeLimite                (* Valor excede o limite permitido. *)
| LMaximoSaques                (* Numero maximo de saques atingido. *)
| LSaqueOk (valor : Z)         (* Saque de R$ {valor:.2f} realizado com sucesso! *)
| LValorInvalido               (* Valor invalido. *)
| LContaCriada                 (* Conta criada com sucesso! *)
| LUsuarioNaoEncontrado        (* Usuario nao encontrado. Criacao de conta encerrada. *)
| LPrompt (texto : string)
| LTransacao (instante : string) (nome : string).
                               (* [{instante}] Transacao executada: {nome} *)

(** [TypeError] also stands for a reference that does not hold an object
    of the class an operation needs. *)
Inductive Excecao :=
| KeyError (chave : string)
| TypeError
| IndexError
| EOFError
| StopIteration.

Inductive Res (A : Type) :=
| Ok (a : A)
| Raise (e : Excecao).
Arguments Ok {A} a.
Arguments Raise {A} e.

(** ** The world and its monad *)

(** [relogio n] is the text [datetime.now().strftime(...)] gives at the
    [n]-th reading of the clock; [leituras] counts the readings made. *)
Record World := mkWorld {
  heap : gmap Ref Objeto;
  stdin : list string;
  stdout : list Linha;
  relogio : nat -> string;
  leituras : nat
}.

Definition com_heap (h : gmap Ref Objeto) (w : World) : World :=
  mkWorld h (stdin w) (stdout w) (relogio w) (leituras w).

Definition com_linha (l : Linha) (w : World) : World :=
  mkWorld (heap w) (stdin w) (stdout w ++ [l]) (relogio w) (leituras w).

Definition com_stdin (i : list string) (w : World) : World :=
  mkWorld (heap w) i (stdout w) (relogio w) (leituras w).

Definition com_leitura (w : World) : World :=
  mkWorld (heap w) (stdin w) (stdout w) (relogio w) (S (leituras w)).

Definition M (A : Type) : Type := World -> Res A * World.

Definition retornar {A} (a : A) : M A := fun w => (Ok a, w).

Definition levantar {A} (e : Excecao) : M A := fun w => (Raise e, w).

Definition ligar {A B} (m : M A) (k : A -> M B) : M B :=
  fun w => match m w with
           | (Ok a, w') => k a w'
           | (Raise e, w') => (Raise e, w')
           end.

#[global] Instance M_ret : MRet M := @retornar.
#[global] Instance M_bind : MBind M := fun A B k m => ligar m k.

(** [print(linha)] *)
Definition print (l : Linha) : M unit :=
  fun w => (Ok tt, com_linha l w).

Definition ler_linha : M string :=
  fun w => match stdin w with
           | [] => (Raise EOFError, w)
           | s :: resto => (Ok s, com_stdin resto w)
           end.

(** [input(texto)]: writes the prompt, then reads one line. *)
Definition input (texto : string) : M string :=
  print (LPrompt texto);; ler_linha.

(** [datetime.now().strftime('%d/%m/%Y %H:%M:%S')] *)
Definition agora : M string :=
  fun w => (Ok (relogio w (leituras w)), com_leitura w).

(** A new object, at a reference the store does not use yet. *)
Definition novo (o : Objeto) : M Ref :=
  fun w => let r := fresh (dom (heap w)) in
           (Ok r, com_heap (<[r := o]> (heap w)) w).

Definition guardar (r : Ref) (o : Objeto) : M unit :=
  fun w => (Ok tt, com_heap (<[r := o]> (heap w)) w).

Definition ler_extrato (r : Ref) : M (list Tupla) :=
  fun w => match heap w !! r with
           | Some (OExtrato ts) => (Ok ts, w)
           | _ => (Raise TypeError, w)
           end.

Definition ler_usuarios (r : Ref) : M (list (gmap string string)) :=
  fun w => match heap w !! r with
           | Some (OUsuarios us) => (Ok us, w)
           | _ => (Raise TypeError, w)
           end.

Definition ler_contas (r : Ref) : M (list (gmap string Valor)) :=
  fun w => match heap w !! r with
           | Some (OContas cs) => (Ok cs, w)
           | _ => (Raise TypeError, w)
           end.

Definition ler_iterador (r : Ref) : M (Ref * nat) :=
  fun w => match heap w !! r with
           | Some (OContasIterator c i) => (Ok (c, i), w)
           | _ => (Raise TypeError, w)
           end.

Definition ler_gerador (r : Ref) : M Gerador :=
  fun w => match heap w !! r with
           | Some (OGerador g) => (Ok g, w)
           | _ => (Raise TypeError, w)
           end.

(** [d[chave]] on a dict. *)
Definition item {V} (d : gmap string V) (chave : string) : M V :=
  match d !! chave with
  | Some v => retornar v
  | None => levantar (KeyError chave)
  end.

(** [extrato.append(t)] *)
Definition append (extrato : Ref) (t : Tupla) : M unit :=
  ts ← ler_extrato extrato;
  guardar extrato (OExtrato (ts ++ [t])).

(** [contas.append(conta)] *)
Definition append_conta (contas : Ref) (conta : gmap string Valor) : M unit :=
  cs ← ler_contas contas;
  guardar contas (OContas (cs ++ [conta])).

(** [list(it)], the loop every [for] runs: advance until [StopIteration].
    [n] bounds the number of advances; [None] means the bound was
    reached. *)
Fixpoint consumir {T} (n : nat) (proximo : M T) (w : World)
  : option (Res (list T) * World) :=
  match n with
  | O => None
  | S n' =>
      match proximo w with
      | (Ok x, w1) =>
          match consumir n' proximo w1 with
          | Some (Ok xs, w2) => Some (Ok (x :: xs), w2)
          | outro => outro
          end
      | (Raise StopIteration, w1) => Some (Ok [], w1)
      | (Raise e, w1) => Some (Raise e, w1)
      end
  end.

(** ** The account iterator *)

Module ContasIterator.

Definition __init__ (contas : Ref) : M Ref :=
  novo (OContasIterator contas 0).

Definition __iter__ (self : Ref) : M Ref := retornar self.

Definition __next__ (self : Ref) : M (Valor * string * Valor) :=
  '(contas, indice) ← ler_iterador self;
  cs ← ler_contas contas;
  if bool_decide (indice < length cs)%nat then
    match cs !! indice with
    | Some conta =>
        guardar self (OContasIterator contas (S indice));;
        numero ← item conta "numero_conta";
        usuario ← item conta "usuario";
        nome ← match usuario with
               | VUsuario u => item u "nome"
               | _ => levantar TypeError
               end;
        saldo ← item conta "saldo";
        retornar (numero, nome, saldo)
    | None => levantar IndexError
    end
  else
    levantar StopIteration.

End ContasIterator.

(** [list(ContasIterator(contas))], the traversal of [listar_contas]. *)
Definition percorrer (n : nat) (contas : Ref) (w : World)
  : option (Res (list (Valor * string * Valor)) * World) :=
  match (it ← ContasIterator.__init__ contas; ContasIterator.__iter__ it) w with
  | (Ok it, w1) => consumir n (ContasIterator.__next__ it) w1
  | (Raise e, w1) => Some (Raise e, w1)
  end.

(** ** The decorator *)

Section Runtime.

(** [str.lower] and [str.upper] of the Python runtime. *)
Variable lower upper : string -> string.

(** [registrar_transacao(func)]: [nome] is [func.__name__], [args] the
    whole argument pack. *)
Definition registrar_transacao {A B} (nome : string) (func : A -> M B) : A -> M B :=
  fun args =>
    resultado ← func args;
    instante ← agora;
    print (LTransacao instante (upper nome));;
    retornar resultado.

(** ** Deposits and withdrawals *)

Definition depositar_func (args : Z * Z * Ref) : M (Z * Ref) :=
  let '(saldo, valor, extrato) := args in
  if bool_decide (valor > 0) then
    append extrato ("Depósito"%string, valor);;
    print (LDepositoOk valor);;
    retornar (saldo + valor, extrato)
  else
    print LDepositoInvalido;;
    retornar (saldo, extrato).

Definition depositar (saldo valor : Z) (extrato : Ref) : M (Z * Ref) :=
  registrar_transacao "depositar" depositar_func (saldo, valor, extrato).

Record SacarArgs := mkSacar {
  saldo : Z;
  valor : Z;
  extrato : Ref;
  limite : Z;
  numero_saques : Z;
  limite_saques : Z
}.

Definition sacar_func (a : SacarArgs) : M (Z * Ref * Z) :=
  let excedeu_saldo := bool_decide (valor a > saldo a) in
  let excedeu_limite := bool_decide (valor a > limite a) in
  let excedeu_saques := bool_decide (numero_saques a >= limite_saques a) in
  if excedeu_saldo then
    print LSaldoInsuficiente;;
    retornar (saldo a, extrato a, numero_saques a)
  else if excedeu_limite then
    print LExcedeLimite;;
    retornar (saldo a, extrato a, numero_saques a)
  else if excedeu_saques then
    print LMaximoSaques;;
    retornar (saldo a, extrato a, numero_saques a)
  else if bool_decide (valor a > 0) then
    append (extrato a) ("Saque"%string, - valor a);;
    print (LSaqueOk (valor a));;
    retornar (saldo a - valor a, extrato a, numero_saques a + 1)
  else
    print LValorInvalido;;
    retornar (saldo a, extrato a, numero_saques a).

Definition sacar (a : SacarArgs) : M (Z * Ref * Z) :=
  registrar_transacao "sacar" sacar_func a.

(** ** Users and accounts *)

(** The list comprehension [[u for u in usuarios if u["cpf"] == cpf]]. *)
Fixpoint filtrar (cpf : string) (us : list (gmap string string))
  : Res (list (gmap string string)) :=
  match us with
  | [] => Ok []
  | u :: resto =>
      match u !! "cpf"%string with
      | None => Raise (KeyError "cpf")
      | Some c =>
          match filtrar cpf resto with
          | Ok fs => Ok (if bool_decide (c = cpf) then u :: fs else fs)
          | Raise e => Raise e
          end
      end
  end.

Definition filtrar_usuario (cpf : string) (usuarios : Ref)
  : M (option (gmap string string)) :=
  us ← ler_usuarios usuarios;
  usuarios_filtrados ← (fun w => (filtrar cpf us, w));
  retornar (head usuarios_filtrados).

(** Truth value of an optional dict: [None] and the empty dict are false. *)
Definition verdadeiro (usuario : option (gmap string string)) : bool :=
  match usuario with
  | Some u => bool_decide (u ≠ ∅)
  | None => false
  end.

Definition criar_conta_func (args : string * Z * Ref)
  : M (option (gmap string Valor)) :=
  let '(agencia, numero_conta, usuarios) := args in
  cpf ← input "Informe o CPF do titular: ";
  usuario ← filtrar_usuario cpf usuarios;
  match usuario with
  | Some u =>
      if verdadeiro usuario then
        print LContaCriada;;
        vazio ← novo (OExtrato []);
        retornar (Some (<["agencia"%string := VTexto agencia]>
                       (<["numero_conta"%string := VNumero numero_conta]>
                       (<["usuario"%string := VUsuario u]>
                       (<["saldo"%string := VNumero 0]>
                       (<["extrato"%string := VLista vazio]> ∅))))))
      else
        print LUsuarioNaoEncontrado;;
        retornar None
  | None =>
      print LUsuarioNaoEncontrado;;
      retornar None
  end.

Definition criar_conta (agencia : string) (numero_conta : Z) (usuarios : Ref)
  : M (option (gmap string Valor)) :=
  registrar_transacao "criar_conta" criar_conta_func (agencia, numero_conta, usuarios).

(** ** The report generator *)

(** [tipo is None or t[0].lower() == tipo.lower()] *)
Definition aceita (tipo : option string) (t : Tupla) : bool :=
  match tipo with
  | None => true
  | Some f => bool_decide (lower (fst t) = lower f)
  end.

(** The [for] loop of the generator from list position [i] on: the first
    accepted entry and the position after it. *)
Fixpoint procurar (tipo : option string) (resto : list Tupla) (i : nat)
  : option (Tupla * nat) :=
  match resto with
  | [] => None
  | t :: r => if aceita tipo t then Some (t, S i) else procurar tipo r (S i)
  end.

(** Calling [gerar_relatorio] only builds the generator object. *)
Definition gerar_relatorio (transacoes : Ref) (tipo : option string) : M Ref :=
  novo (OGerador (GSuspenso transacoes tipo 0)).

(** [next(g)] on such a generator: resume the loop up to the next
    [yield], or return. *)
Definition gerador_next (g : Ref) : M Tupla :=
  estado ← ler_gerador g;
  match estado with
  | GTerminado => levantar StopIteration
  | GSuspenso transacoes tipo i =>
      ts ← ler_extrato transacoes;
      match procurar tipo (drop i ts) i with
      | Some (t, j) =>
          guardar g (OGerador (GSuspenso transacoes tipo j));;
          retornar t
      | None =>
          guardar g (OGerador GTerminado);;
          levantar StopIteration
      end
  end.

(** [list(gerar_relatorio(transacoes, tipo))] *)
Definition relatorio (n : nat) (transacoes : Ref) (tipo : option string) (w : World)
  : option (Res (list Tupla) * World) :=
  match gerar_relatorio transacoes tipo w with
  | (Ok g, w1) => consumir n (gerador_next g) w1
  | (Raise e, w1) => Some (Raise e, w1)
  end.

(** ** The command loop

    The variables [saldo], [extrato] and [numero_saques] of [main], and its
    branches [d] and [s], which rebind them to what the call returns. *)

Record Caixa := mkCaixa {
  cx_saldo : Z;
  cx_extrato : Ref;
  cx_numero_saques : Z
}.

Inductive Operacao :=
| OpDepositar (valor : Z)
| OpSacar (valor limite limite_saques : Z).

Definition opcao (op : Operacao) (c : Caixa) : M Caixa :=
  match op with
  | OpDepositar v =>
      '(s, e) ← depositar (cx_saldo c) v (cx_extrato c);
      retornar (mkCaixa s e (cx_numero_saques c))
  | OpSacar v l ls =>
      '(s, e, n) ← sacar (mkSacar (cx_saldo c) v (cx_extrato c) l (cx_numero_saques c) ls);
      retornar (mkCaixa s e n)
  end.

Fixpoint executar (ops : list Operacao) (c : Caixa) : M Caixa :=
  match ops with
  | [] => retornar c
  | op :: resto => c' ← opcao op c; executar resto c'
  end.

(** The world after the decorator's audit line for [nome]. *)
Definition registro (nome : string) (w : World) : World :=
  com_linha (LTransacao (relogio w (leituras w)) (upper nome)) (com_leitura w).

End Runtime.

(** [sum(valor for _, valor in ts)] *)
Definition soma (ts : list Tupla) : Z :=
  foldl (fun acc t => acc + snd t) 0 ts.

(** Number of withdrawals announced as done on the console. *)
Definition saque_feito (l : Linha) : bool :=
  match l with LSaqueOk _ => true | _ => false end.

Definition saques_feitos (saida : list Linha) : nat :=
  length (List.filter saque_feito saida).

(** The four console lines by which [sacar] reports a refusal. *)
Definition erro_de_saque (l : Linha) : bool :=
  match l with
  | LSaldoInsuficiente | LExcedeLimite | LMaximoSaques | LValorInvalido => true
  | _ => false
  end.

(** [t] is the summary of account [conta]: its number, the full name of
    its owner and its balance. *)
Definition resumo_de (conta : gmap string Valor) (t : Valor * string * Valor) : Prop :=
  conta !! "numero_conta"%string = Some (fst (fst t)) ∧
  (∃ u, conta !! "usuario"%string = Some (VUsuario u) ∧
        u !! "nome"%string = Some (snd (fst t))) ∧
  conta !! "saldo"%string = Some (snd t).

(** ** Sample data

    [str.lower] and [str.upper] on ASCII text (the twenty-six letters are
    mapped, every other byte is kept), a clock, a registered user, and a
    world holding an empty statement at reference 1, the registry at 2,
    an empty directory at 3 and a fresh iterator over it at 4. *)

Module Exemplo.

Definition minuscula (c : Ascii.ascii) : Ascii.ascii :=
  let n := Ascii.nat_of_ascii c in
  if ((65 <=? n) && (n <=? 90))%nat then Ascii.ascii_of_nat (n + 32) else c.

Definition maiuscula (c : Ascii.ascii) : Ascii.ascii :=
  let n := Ascii.nat_of_ascii c in
  if ((97 <=? n) && (n <=? 122))%nat then Ascii.ascii_of_nat (n - 32) else c.

Fixpoint mapear (f : Ascii.ascii -> Ascii.ascii) (s : string) : string :=
  match s with
  | EmptyString => EmptyString
  | String c r => String (f c) (mapear f r)
  end.

Definition lower : string -> string := mapear minuscula.
Definition upper : string -> string := mapear maiuscula.

Definition r_extrato : Ref := 1%positive.
Definition r_usuarios : Ref := 2%positive.
Definition r_contas : Ref := 3%positive.
Definition r_iterador : Ref := 4%positive.

Definition hora : nat -> string := fun _ => "03/11/2026 12:00:00"%string.

Definition ana : gmap string string :=
  <["nome"%string := "Ana"%string]>
  (<["data_nascimento"%string := "01-01-1990"%string]>
  (<["cpf"%string := "111"%string]>
  (<["endereco"%string := "Rua A, 1 - Centro - Luanda/LU"%string]> ∅))).

Definition conta_da_ana : gmap string Valor :=
  <["agencia"%string := VTexto "0001"]>
  (<["numero_conta"%string := VNumero 1]>
  (<["usuario"%string := VUsuario ana]>
  (<["saldo"%string := VNumero 0]>
  (<["extrato"%string := VLista 5%positive]> ∅)))).

Definition mundo : World :=
  mkWorld
    (<[r_extrato := OExtrato []]>
    (<[r_usuarios := OUsuarios [ana]]>
    (<[r_contas := OContas []]>
    (<[r_iterador := OContasIterator r_contas 0]> ∅))))
    ["111"%string; "222"%string] [] hora 0.

(** The statement after a deposit of 100 and withdrawals of 30 and 20. *)
Definition movimentos : list Tupla :=
  [("Depósito"%string, 100); ("Saque"%string, -30); ("Saque"%string, -20)].

Definition mundo_movimentado : World :=
  com_heap (<[r_extrato := OExtrato movimentos]> (heap mundo)) mundo.

(** A directory holding one account. *)
Definition mundo_com_conta : World :=
  com_heap (<[r_contas := OContas [conta_da_ana]]> (heap mundo)) mundo.

(** The variables of [main] at start, and a day at the counter. *)
Definition caixa0 : Caixa := mkCaixa 0 r_extrato 0.

Definition dia : list Operacao :=
  [OpDepositar 100; OpSacar 10 500 3; OpSacar 10 500 3; OpSacar 1000 500 3;
   OpSacar 10 500 3].

Definition resumo_da_ana : Valor * string * Valor :=
  (VNumero 1, "Ana"%string, VNumero 0).

End Exemplo.

(** ** The other commands of the loop

    Branch [nc] of [main]: a returned account, being a non-empty dict, is
    appended to the directory and the next account number moves on. *)

Section Comandos.

Variable lower upper : string -> string.

Definition opcao_nc (agencia : string) (numero_conta : Z) (usuarios contas : Ref)
  : M Z :=
  conta ← criar_conta upper agencia numero_conta usuarios;
  match conta with
  | Some c =>
      if bool_decide (size c ≠ 0%nat) then
        append_conta contas c;;
        retornar (numero_conta + 1)
      else retornar numero_conta
  | None => retornar numero_conta
  end.

(** [k] turns of the loop, all of them choosing [nc]. *)
Fixpoint abrir_contas (k : nat) (agencia : string) (numero_conta : Z)
    (usuarios contas : Ref) : M Z :=
  match k with
  | O => retornar numero_conta
  | S k' =>
      n ← opcao_nc agencia numero_conta usuarios contas;
      abrir_contas k' agencia n usuarios contas
  end.

(** [usuarios.append(u)] *)
Definition append_usuario (usuarios : Ref) (u : gmap string string) : M unit :=
  us ← ler_usuarios usuarios;
  guardar usuarios (OUsuarios (us ++ [u])).

(** *** The full console

    [criar_usuario] and the report branch print lines of their own.  The
    console [tela] interleaves them with the lines of [Linha]; a
    computation of [M] is run with an empty [stdout] and what it printed
    is moved to [tela]. *)

Inductive Aviso :=
| AUsuarioExiste       (* Ja existe um usuario com este CPF! *)
| AUsuarioCriado       (* Usuario criado com sucesso! *)
| ASemTransacoes       (* Nenhuma transacao registrada. *)
| ACabecalho           (* ========= RELATORIO DE TRANSACOES ========= *)
| ATransacao (tipo : string) (valor : Z)   (* {tipo}: R$ {valor:.2f} *)
| ARodape.             (* =========================================== *)

Inductive Saida :=
| SLinha (l : Linha)
| SAviso (a : Aviso).

Record Terminal := mkTerminal {
  base : World;
  tela : list Saida
}.

Definition limpo (w : World) : World :=
  mkWorld (heap w) (stdin w) [] (relogio w) (leituras w).

Definition T (A : Type) : Type := Terminal -> Res A * Terminal.

Definition T_ligar {A B} (m : T A) (k : A -> T B) : T B :=
  fun t => match m t with
           | (Ok a, t') => k a t'
           | (Raise e, t') => (Raise e, t')
           end.

#[global] Instance T_ret : MRet T := fun A a t => (Ok a, t).
#[global] Instance T_bind : MBind T := fun A B k m => T_ligar m k.

Definition elevar {A} (m : M A) : T A :=
  fun t => let '(r, w) := m (limpo (base t)) in
           (r, mkTerminal (limpo w) (tela t ++ map SLinha (stdout w))).

Definition aviso (a : Aviso) : T unit :=
  fun t => (Ok tt, mkTerminal (base t) (tela t ++ [SAviso a])).

Definition criar_usuario (usuarios : Ref) : T unit :=
  cpf ← elevar (input "Informe o CPF (somente números): ");
  usuario ← elevar (filtrar_usuario cpf usuarios);
  if verdadeiro usuario then
    aviso AUsuarioExiste
  else
    nome ← elevar (input "Informe o nome completo: ");
    data_nascimento ← elevar (input "Data de nascimento (dd-mm-aaaa): ");
    endereco ← elevar (input "Endereço (logradouro, nº - bairro - cidade/UF): ");
    elevar (append_usuario usuarios
              (<["nome"%string := nome]>
              (<["data_nascimento"%string := data_nascimento]>
              (<["cpf"%string := cpf]>
              (<["endereco"%string := endereco]> ∅)))));;
    aviso AUsuarioCriado.

(** A [for] loop with a body: advance, run the body on what was yielded,
    until [StopIteration].  [n] bounds the number of advances. *)
Fixpoint para_cada {X} (n : nat) (proximo : M X) (corpo : X -> T unit) (t : Terminal)
  : option (Res unit * Terminal) :=
  match n with
  | O => None
  | S n' =>
      match elevar proximo t with
      | (Ok x, t1) =>
          match corpo x t1 with
          | (Ok _, t2) => para_cada n' proximo corpo t2
          | (Raise e, t2) => Some (Raise e, t2)
          end
      | (Raise StopIteration, t1) => Some (Ok tt, t1)
      | (Raise e, t1) => Some (Raise e, t1)
      end
  end.

(** Branch [r] of [main]. *)
Definition opcao_r (n : nat) (extrato : Ref) (t : Terminal)
  : option (Res unit * Terminal) :=
  match elevar (ler_extrato extrato) t with
  | (Ok [], t1) => Some (aviso ASemTransacoes t1)
  | (Ok (_ :: _), t1) =>
      match (tipo ← elevar (input "Filtrar por tipo (Depósito/Saque ou Enter para todos): ");
             aviso ACabecalho;;
             elevar (gerar_relatorio extrato
                       (if bool_decide (tipo = ""%string) then None else Some tipo))) t1 with
      | (Ok g, t2) =>
          match para_cada n (gerador_next lower g)
                  (fun transacao => aviso (ATransacao (fst transacao) (snd transacao))) t2 with
          | Some (Ok _, t3) => Some (aviso ARodape t3)
          | outro => outro
          end
      | (Raise e, t2) => Some (Raise e, t2)
      end
  | (Raise e, t1) => Some (Raise e, t1)
  end.

End Comandos.

(** ** More sample data

    A store with a statement, a registry, a directory of one account, an
    iterator at its start and a report generator suspended after the
    first entry; a user and an account with a field missing; a terminal
    at which a new user is typed in. *)

Module Amostra.

Definition r_gerador : Ref := 6%positive.

Definition mundo_cheio : World :=
  mkWorld
    (<[Exemplo.r_extrato := OExtrato Exemplo.movimentos]>
    (<[Exemplo.r_usuarios := OUsuarios [Exemplo.ana]]>
    (<[Exemplo.r_contas := OContas [Exemplo.conta_da_ana]]>
    (<[Exemplo.r_iterador := OContasIterator Exemplo.r_contas 0]>
    (<[r_gerador := OGerador (GSuspenso Exemplo.r_extrato (Some "SAQUE"%string) 1)]> ∅)))))
    ["111"%string; "222"%string] [] Exemplo.hora 0.

Definition sem_cpf : gmap string string :=
  <["nome"%string := "Rui"%string]> ∅.

Definition mundo_com_usuario_sem_cpf : World :=
  com_heap (<[Exemplo.r_usuarios := OUsuarios [Exemplo.ana; sem_cpf]]> (heap Exemplo.mundo))
    Exemplo.mundo.

Definition conta_sem_saldo : gmap string Valor :=
  <["agencia"%string := VTexto "0001"]>
  (<["numero_conta"%string := VNumero 2]>
  (<["usuario"%string := VUsuario Exemplo.ana]> ∅)).

Definition mundo_com_conta_sem_saldo : World :=
  com_heap (<[Exemplo.r_contas := OContas [conta_sem_saldo]]> (heap Exemplo.mundo))
    Exemplo.mundo.

Definition bia : gmap string string :=
  <["nome"%string := "Bia"%string]>
  (<["data_nascimento"%string := "02-02-1992"%string]>
  (<["cpf"%string := "333"%string]>
  (<["endereco"%string := "Rua B, 2 - Centro - Luanda/LU"%string]> ∅))).

Definition terminal : Terminal :=
  mkTerminal
    (com_stdin ["333"%string; "Bia"%string; "02-02-1992"%string;
                "Rua B, 2 - Centro - Luanda/LU"%string; "333"%string]
       Exemplo.mundo)
    [].

Definition terminal_repetido : Terminal := mkTerminal Exemplo.mundo [].

Definition terminal_curto : Terminal :=
  mkTerminal (com_stdin ["333"%string; "Bia"%string] Exemplo.mundo) [].

Definition terminal_com_extrato : Terminal :=
  mkTerminal (com_stdin ["SAQUE"%string] Exemplo.mundo_movimentado) [].

End Amostra.

(** * Properties *)

Section Propriedades.

Variable lower upper : string -> string.

Ltac passo :=
  unfold depositar, sacar, criar_conta, registrar_transacao, depositar_func,
    sacar_func, append, input, print, agora, guardar, retornar, levantar,
    registro, mbind, mret, M_bind, M_ret, ligar; simpl.

(* Closes the shape shared by the two invariants below once the run has
   been rewritten to its result. *)
Ltac fecha :=
  eexists _, _, _, _;
  split; [reflexivity|];
  split; [reflexivity|];
  split; [simpl; first [apply lookup_insert_eq | eassumption]|];
  split; [simpl; rewrite <- app_assoc; reflexivity|];
  unfold saques_feitos; simpl.

Lemma ler_extrato_ok w r ts :
  heap w !! r = Some (OExtrato ts) → ler_extrato r w = (Ok ts, w).
Proof. intros H. unfold ler_extrato. by rewrite H. Qed.

(** *** The decorator on a call that returns, and on one that raises *)

Lemma registrar_ok {A B} (nome : string) (func : A → M B) args w (r : B) w1 :
  func args w = (Ok r, w1) →
  registrar_transacao upper nome func args w = (Ok r, registro upper nome w1).
Proof. intros H. passo. by rewrite H. Qed.

Lemma registrar_raise {A B} (nome : string) (func : A → M B) args w e w1 :
  func args w = (Raise e, w1) →
  registrar_transacao upper nome func args w = (Raise e, w1).
Proof. intros H. passo. by rewrite H. Qed.

(** *** The branches of the undecorated functions *)

Lemma depositar_func_feito s v e ts w :
  heap w !! e = Some (OExtrato ts) → v > 0 →
  depositar_func (s, v, e) w =
    (Ok (s + v, e),
     com_linha (LDepositoOk v)
       (com_heap (<[e := OExtrato (ts ++ [("Depósito"%string, v)])]> (heap w)) w)).
Proof.
  intros Hts Hv. passo. rewrite bool_decide_eq_true_2 by lia.
  by rewrite (ler_extrato_ok _ _ _ Hts).
Qed.

Lemma depositar_func_recusa s v e w :
  v <= 0 →
  depositar_func (s, v, e) w = (Ok (s, e), com_linha LDepositoInvalido w).
Proof. intros Hv. passo. by rewrite bool_decide_eq_false_2 by lia. Qed.

Lemma sacar_func_saldo a w :
  valor a > saldo a →
  sacar_func a w =
    (Ok (saldo a, extrato a, numero_saques a), com_linha LSaldoInsuficiente w).
Proof. intros. passo. by rewrite bool_decide_eq_true_2 by lia. Qed.

Lemma sacar_func_limite a w :
  valor a <= saldo a → valor a > limite a →
  sacar_func a w =
    (Ok (saldo a, extrato a, numero_saques a), com_linha LExcedeLimite w).
Proof.
  intros. passo. rewrite bool_decide_eq_false_2 by lia.
  by rewrite bool_decide_eq_true_2 by lia.
Qed.

Lemma sacar_func_saques a w :
  valor a <= saldo a → valor a <= limite a →
  numero_saques a >= limite_saques a →
  sacar_func a w =
    (Ok (saldo a, extrato a, numero_saques a), com_linha LMaximoSaques w).
Proof.
  intros. passo. rewrite !bool_decide_eq_false_2 by lia.
  by rewrite bool_decide_eq_true_2 by lia.
Qed.

Lemma sacar_func_invalido a w :
  valor a <= saldo a → valor a <= limite a →
  numero_saques a < limite_saques a → valor a <= 0 →
  sacar_func a w =
    (Ok (saldo a, extrato a, numero_saques a), com_linha LValorInvalido w).
Proof. intros. passo. by rewrite !bool_decide_eq_false_2 by lia. Qed.

Lemma sacar_func_feito a w ts :
  heap w !! extrato a = Some (OExtrato ts) →
  valor a <= saldo a → valor a <= limite a →
  numero_saques a < limite_saques a → valor a > 0 →
  sacar_func a w =
    (Ok (saldo a - valor a, extrato a, numero_saques a + 1),
     com_linha (LSaqueOk (valor a))
       (com_heap (<[extrato a := OExtrato (ts ++ [("Saque"%string, - valor a)])]>
                    (heap w)) w)).
Proof.
  intros Hts **. passo. rewrite !bool_decide_eq_false_2 by lia.
  rewrite bool_decide_eq_true_2 by lia.
  by rewrite (ler_extrato_ok _ _ _ Hts).
Qed.

(** Every call of [sacar] on a statement list either refuses, with one of
    the four lines and nothing changed, or commits all three updates. *)
Lemma sacar_casos (a : SacarArgs) (w : World) (ts : list Tupla) :
  heap w !! extrato a = Some (OExtrato ts) →
  (∃ l, erro_de_saque l = true ∧
        sacar upper a w =
          (Ok (saldo a, extrato a, numero_saques a),
           registro upper "sacar" (com_linha l w)))
  ∨ (valor a > 0 ∧ valor a <= saldo a ∧ valor a <= limite a ∧
     numero_saques a < limite_saques a ∧
     sacar upper a w =
       (Ok (saldo a - valor a, extrato a, numero_saques a + 1),
        registro upper "sacar"
          (com_linha (LSaqueOk (valor a))
             (com_heap (<[extrato a := OExtrato (ts ++ [("Saque"%string, - valor a)])]>
                          (heap w)) w)))).
Proof.
  intros Hts. unfold sacar.
  destruct (decide (valor a > saldo a)) as [|H1];
    [left; exists LSaldoInsuficiente; split; [done|];
     by apply registrar_ok, sacar_func_saldo|].
  destruct (decide (valor a > limite a)) as [|H2];
    [left; exists LExcedeLimite; split; [done|];
     apply registrar_ok, sacar_func_limite; lia|].
  destruct (decide (numero_saques a >= limite_saques a)) as [|H3];
    [left; exists LMaximoSaques; split; [done|];
     apply registrar_ok, sacar_func_saques; lia|].
  destruct (decide (valor a > 0)) as [H4|H4].
  - right. repeat split; try lia.
    apply registrar_ok, sacar_func_feito; [done|lia..].
  - left; exists LValorInvalido; split; [done|].
    apply registrar_ok, sacar_func_invalido; lia.
Qed.

(** C4. A deposit of a positive amount returns the old balance plus the
    amount and appends exactly one entry [("Depósito", +valor)] to the
    statement; a deposit of any other amount returns balance and statement
    as they were, leaves the store alone and prints the invalid-value
    line.  Either way the audit line follows. *)
Theorem depositar_spec (saldo valor : Z) (extrato : Ref) (ts : list Tupla) (w : World) :
  heap w !! extrato = Some (OExtrato ts) →
  (valor > 0 →
     depositar upper saldo valor extrato w =
       (Ok (saldo + valor, extrato),
        registro upper "depositar"
          (com_linha (LDepositoOk valor)
             (com_heap (<[extrato := OExtrato (ts ++ [("Depósito"%string, valor)])]> (heap w)) w))))
  ∧ (valor <= 0 →
     depositar upper saldo valor extrato w =
       (Ok (saldo, extrato), registro upper "depositar" (com_linha LDepositoInvalido w))).
Proof.
  intros Hts. split; intros Hv; unfold depositar; apply registrar_ok.
  - by apply depositar_func_feito.
  - by apply depositar_func_recusa.
Qed.

(** C2. A withdrawal of more than the balance prints the
    insufficient-balance line whatever the other arguments are; the
    per-withdrawal limit is reported only when the balance check passed,
    and the number of withdrawals only when both passed.  One line is
    printed, then the audit line, and the three values come back as
    passed. *)
Theorem sacar_prioridade (a : SacarArgs) (w : World) :
  (valor a > saldo a →
     sacar upper a w =
       (Ok (saldo a, extrato a, numero_saques a),
        registro upper "sacar" (com_linha LSaldoInsuficiente w)))
  ∧ (valor a <= saldo a → valor a > limite a →
     sacar upper a w =
       (Ok (saldo a, extrato a, numero_saques a),
        registro upper "sacar" (com_linha LExcedeLimite w)))
  ∧ (valor a <= saldo a → valor a <= limite a →
     numero_saques a >= limite_saques a →
     sacar upper a w =
       (Ok (saldo a, extrato a, numero_saques a),
        registro upper "sacar" (com_linha LMaximoSaques w))).
Proof.
  repeat split; intros; unfold sacar; apply registrar_ok.
  - by apply sacar_func_saldo.
  - by apply sacar_func_limite.
  - by apply sacar_func_saques.
Qed.

Lemma app_self_nil {A} (l x : list A) : l = l ++ x → x = [].
Proof.
  intros H. apply (app_inv_head l). by rewrite app_nil_r.
Qed.

(** C3. Whenever the line a call of [sacar] prints is one of the four
    refusals, the call returns the balance, the statement reference and
    the withdrawal count it was given, and the store (hence the statement
    list itself) is the one before the call. *)
Theorem sacar_erro_sem_efeito (a : SacarArgs) (w w' : World)
    (r : Res (Z * Ref * Z)) (l : Linha) (resto : list Linha) :
  sacar upper a w = (r, w') →
  stdout w' = stdout w ++ l :: resto →
  erro_de_saque l = true →
  r = Ok (saldo a, extrato a, numero_saques a) ∧ heap w' = heap w.
Proof.
  passo. intros Hrun Hout Herr.
  destruct (bool_decide (valor a > saldo a));
    [by simplify_eq|].
  destruct (bool_decide (valor a > limite a));
    [by simplify_eq|].
  destruct (bool_decide (numero_saques a >= limite_saques a));
    [by simplify_eq|].
  destruct (bool_decide (valor a > 0));
    [|by simplify_eq].
  unfold ler_extrato in Hrun.
  destruct (heap w !! extrato a) as [[]|]; simpl in Hrun; simplify_eq; simpl in Hout.
  - rewrite <- !app_assoc in Hout. apply app_inv_head in Hout.
    simpl in Hout. by simplify_eq.
  - by apply app_self_nil in Hout.
  - by apply app_self_nil in Hout.
  - by apply app_self_nil in Hout.
  - by apply app_self_nil in Hout.
  - by apply app_self_nil in Hout.
Qed.

Lemma soma_app (ts : list Tupla) (t : Tupla) : soma (ts ++ [t]) = soma ts + snd t.
Proof. unfold soma. by rewrite foldl_app. Qed.

Lemma saques_feitos_app (xs ys : list Linha) :
  saques_feitos (xs ++ ys) = (saques_feitos xs + saques_feitos ys)%nat.
Proof. unfold saques_feitos. by rewrite List.filter_app, length_app. Qed.

(** What one turn of the command loop does to the variables of [main]:
    it returns, keeps the statement reference, extends the console, adds
    to the count the withdrawals it announced, and moves the balance and
    the sum of the statement by the same amount. *)
Lemma opcao_inv (op : Operacao) (c : Caixa) (w : World) (ts : list Tupla) :
  heap w !! cx_extrato c = Some (OExtrato ts) →
  ∃ c' w' ts' saida,
    opcao upper op c w = (Ok c', w') ∧
    cx_extrato c' = cx_extrato c ∧
    heap w' !! cx_extrato c = Some (OExtrato ts') ∧
    stdout w' = stdout w ++ saida ∧
    cx_numero_saques c' = cx_numero_saques c + Z.of_nat (saques_feitos saida) ∧
    cx_saldo c' - soma ts' = cx_saldo c - soma ts.
Proof.
  intros Hts. destruct op as [v | v l ls]; unfold opcao.
  - destruct (decide (v > 0)) as [Hv | Hv];
      unfold mbind, M_bind, ligar, depositar;
      [rewrite (registrar_ok _ _ _ _ _ _
                  (depositar_func_feito (cx_saldo c) v _ ts w Hts Hv))
      |rewrite (registrar_ok _ _ _ _ _ _
                  (depositar_func_recusa (cx_saldo c) v (cx_extrato c) w ltac:(lia)))];
      fecha.
    + rewrite soma_app. simpl. lia.
    + lia.
  - set (a := mkSacar (cx_saldo c) v (cx_extrato c) l (cx_numero_saques c) ls).
    destruct (sacar_casos a w ts Hts) as [(e & He & Hrun) | (Hv & _ & _ & _ & Hrun)];
      unfold mbind, M_bind, ligar; rewrite Hrun; fecha.
    + destruct e; simpl in *; try discriminate; lia.
    + rewrite soma_app. simpl. lia.
Qed.

Lemma executar_inv (ops : list Operacao) (c : Caixa) (w : World) (ts : list Tupla) :
  heap w !! cx_extrato c = Some (OExtrato ts) →
  ∃ c' w' ts' saida,
    executar upper ops c w = (Ok c', w') ∧
    cx_extrato c' = cx_extrato c ∧
    heap w' !! cx_extrato c = Some (OExtrato ts') ∧
    stdout w' = stdout w ++ saida ∧
    cx_numero_saques c' = cx_numero_saques c + Z.of_nat (saques_feitos saida) ∧
    cx_saldo c' - soma ts' = cx_saldo c - soma ts.
Proof.
  revert c w ts. induction ops as [| op ops IH]; intros c w ts Hts.
  - exists c, w, ts, []. unfold saques_feitos. simpl. rewrite app_nil_r.
    repeat split; try done; lia.
  - destruct (opcao_inv op c w ts Hts) as (c1 & w1 & ts1 & s1 & Hrun & He & Hh & Ho & Hn & Hs).
    rewrite <- He in Hh.
    destruct (IH c1 w1 ts1 Hh) as (c2 & w2 & ts2 & s2 & Hrun2 & He2 & Hh2 & Ho2 & Hn2 & Hs2).
    exists c2, w2, ts2, (s1 ++ s2). simpl.
    unfold mbind, M_bind, ligar. rewrite Hrun, Hrun2.
    rewrite saques_feitos_app, Ho2, Ho, app_assoc, <- He, <- Hh2.
    repeat split; try congruence; lia.
Qed.

(** C1. From balance 0 and an empty statement, after each call of any
    sequence of deposits and withdrawals (the first [k] of [ops], for every
    [k]) the loop is still running and the balance is the sum of the
    amounts stored in the statement, each stored with its sign. *)
Theorem saldo_e_soma_do_extrato (ops : list Operacao) (k : nat) (c : Caixa) (w : World) :
  heap w !! cx_extrato c = Some (OExtrato []) →
  cx_saldo c = 0 →
  ∃ c' w' ts,
    executar upper (take k ops) c w = (Ok c', w') ∧
    cx_extrato c' = cx_extrato c ∧
    heap w' !! cx_extrato c' = Some (OExtrato ts) ∧
    cx_saldo c' = soma ts.
Proof.
  intros Hts H0.
  destruct (executar_inv (take k ops) c w [] Hts)
    as (c' & w' & ts & s & Hrun & He & Hh & _ & _ & Hs).
  exists c', w', ts. rewrite He. repeat split; try done.
  unfold soma in Hs at 2. simpl in Hs. lia.
Qed.

(* A refusal line cannot be the announcement of a withdrawal. *)
Ltac recusado H :=
  simplify_eq; simpl in H; rewrite <- app_assoc in H;
  apply app_inv_head in H; discriminate.

Lemma sacar_feito (a : SacarArgs) (w w' : World)
    (r : Res (Z * Ref * Z)) (v : Z) (resto : list Linha) :
  sacar upper a w = (r, w') →
  stdout w' = stdout w ++ LSaqueOk v :: resto →
  r = Ok (saldo a - valor a, extrato a, numero_saques a + 1).
Proof.
  passo. intros Hrun Hout.
  destruct (bool_decide (valor a > saldo a)); [recusado Hout|].
  destruct (bool_decide (valor a > limite a)); [recusado Hout|].
  destruct (bool_decide (numero_saques a >= limite_saques a)); [recusado Hout|].
  destruct (bool_decide (valor a > 0)); [|recusado Hout].
  unfold ler_extrato in Hrun.
  destruct (heap w !! extrato a) as [[]|]; simpl in Hrun; simplify_eq;
    simpl in Hout; try by apply app_self_nil in Hout.
  reflexivity.
Qed.

(** C5. Run any sequence of calls from a withdrawal count of 0.  The count
    then equals the number of withdrawals the console announced as done;
    when that number is exactly [limite_saques], the next withdrawal of a
    positive amount within the balance and within the per-withdrawal limit
    prints the maximum-reached line and changes nothing.  And any single
    call that announces a withdrawal as done returns the count it was
    given plus 1. *)
Theorem limite_de_saques (ops : list Operacao) (c : Caixa) (w : World)
    (ts : list Tupla) (limite_saques : Z) :
  heap w !! cx_extrato c = Some (OExtrato ts) →
  cx_numero_saques c = 0 →
  (∃ c' w' saida,
     executar upper ops c w = (Ok c', w') ∧
     stdout w' = stdout w ++ saida ∧
     cx_numero_saques c' = Z.of_nat (saques_feitos saida) ∧
     (Z.of_nat (saques_feitos saida) = limite_saques →
      ∀ v limite, v > 0 → v <= cx_saldo c' → v <= limite →
        sacar upper (mkSacar (cx_saldo c') v (cx_extrato c') limite
                       (cx_numero_saques c') limite_saques) w' =
          (Ok (cx_saldo c', cx_extrato c', cx_numero_saques c'),
           registro upper "sacar" (com_linha LMaximoSaques w'))))
  ∧ (∀ a w0 w1 r v resto,
       sacar upper a w0 = (r, w1) →
       stdout w1 = stdout w0 ++ LSaqueOk v :: resto →
       ∃ s e, r = Ok (s, e, numero_saques a + 1)).
Proof.
  intros Hts Hn. split.
  - destruct (executar_inv ops c w ts Hts)
      as (c' & w' & ts' & saida & Hrun & _ & _ & Hout & Hcount & _).
    exists c', w', saida. rewrite Hn in Hcount. simpl in Hcount.
    repeat split; try done.
    intros HL v limite Hv Hs Hl.
    unfold sacar. apply registrar_ok.
    apply (sacar_func_saques (mkSacar (cx_saldo c') v (cx_extrato c') limite
                                (cx_numero_saques c') limite_saques) w'); simpl; lia.
  - intros a w0 w1 r v resto Hrun Hout.
    rewrite (sacar_feito a w0 w1 r v resto Hrun Hout). eauto.
Qed.

(** *** The report generator *)

Lemma procurar_some tipo resto i t j :
  procurar lower tipo resto i = Some (t, j) →
  (i < j ≤ i + length resto)%nat ∧
  List.filter (aceita lower tipo) resto =
    t :: List.filter (aceita lower tipo) (drop (j - i) resto).
Proof.
  revert i. induction resto as [| x resto IH]; intros i H; simpl in *; [done|].
  destruct (aceita lower tipo x) eqn:Hx.
  - simplify_eq. replace (S i - i)%nat with 1%nat by lia. simpl.
    rewrite drop_0. split; [lia | done].
  - destruct (IH _ H) as [Hj Hf]. split; [lia|].
    replace (j - i)%nat with (S (j - S i)) by lia. done.
Qed.

Lemma procurar_none tipo resto i :
  procurar lower tipo resto i = None →
  List.filter (aceita lower tipo) resto = [].
Proof.
  revert i. induction resto as [| x resto IH]; intros i H; simpl in *; [done|].
  destruct (aceita lower tipo x); [done | eauto].
Qed.

Lemma gerador_next_yield g tr tipo i ts t j w :
  heap w !! g = Some (OGerador (GSuspenso tr tipo i)) →
  heap w !! tr = Some (OExtrato ts) →
  procurar lower tipo (drop i ts) i = Some (t, j) →
  gerador_next lower g w =
    (Ok t, com_heap (<[g := OGerador (GSuspenso tr tipo j)]> (heap w)) w).
Proof.
  intros Hg Htr Hp. unfold gerador_next, ler_gerador, mbind, M_bind, ligar.
  rewrite Hg. rewrite (ler_extrato_ok _ _ _ Htr), Hp. reflexivity.
Qed.

Lemma gerador_next_fim g tr tipo i ts w :
  heap w !! g = Some (OGerador (GSuspenso tr tipo i)) →
  heap w !! tr = Some (OExtrato ts) →
  procurar lower tipo (drop i ts) i = None →
  gerador_next lower g w =
    (Raise StopIteration, com_heap (<[g := OGerador GTerminado]> (heap w)) w).
Proof.
  intros Hg Htr Hp. unfold gerador_next, ler_gerador, mbind, M_bind, ligar.
  rewrite Hg. rewrite (ler_extrato_ok _ _ _ Htr), Hp. reflexivity.
Qed.

(** Draining a generator suspended at position [i] gives the accepted
    entries from [i] on and leaves the generator returned, once the bound
    exceeds the number of entries left. *)
Lemma gerador_consumir g tr tipo ts (n : nat) :
  ∀ i w,
    g ≠ tr →
    heap w !! g = Some (OGerador (GSuspenso tr tipo i)) →
    heap w !! tr = Some (OExtrato ts) →
    (length ts - i < n)%nat →
    consumir n (gerador_next lower g) w =
      Some (Ok (List.filter (aceita lower tipo) (drop i ts)),
            com_heap (<[g := OGerador GTerminado]> (heap w)) w).
Proof.
  induction n as [| n IH]; intros i w Hne Hg Htr Hn; [lia|].
  simpl. destruct (procurar lower tipo (drop i ts) i) as [[t j]|] eqn:Hp.
  - rewrite (gerador_next_yield _ _ _ _ _ _ _ _ Hg Htr Hp).
    destruct (procurar_some _ _ _ _ _ Hp) as [Hj Hf].
    rewrite length_drop in Hj.
    rewrite (IH j); simpl.
    + rewrite Hf, drop_drop, insert_insert_eq.
      replace (i + (j - i))%nat with j by lia. reflexivity.
    + done.
    + apply lookup_insert_eq.
    + by rewrite lookup_insert_ne.
    + lia.
  - rewrite (gerador_next_fim _ _ _ _ _ _ Hg Htr Hp).
    by rewrite (procurar_none _ _ _ Hp).
Qed.

Lemma filter_todos {A} (l : list A) : List.filter (fun _ => true) l = l.
Proof. induction l; simpl; congruence. Qed.

Lemma fresh_ne (h : gmap Ref Objeto) (r : Ref) (o : Objeto) :
  h !! r = Some o → fresh (dom h) ≠ r.
Proof.
  intros Hr Heq. apply (is_fresh (dom h)). rewrite Heq.
  apply elem_of_dom. eauto.
Qed.

(** C6. The report over a statement, run to exhaustion: with no filter it
    yields the statement as it is, in order; with a filter [f] it yields,
    in order, exactly the entries whose kind equals [f] once both are
    lower-cased.  The statement itself is left as it was. *)
Theorem gerar_relatorio_spec (transacoes : Ref) (ts : list Tupla) (w : World) (n : nat) :
  heap w !! transacoes = Some (OExtrato ts) →
  (length ts < n)%nat →
  (∃ w', relatorio lower n transacoes None w = Some (Ok ts, w') ∧
         heap w' !! transacoes = Some (OExtrato ts))
  ∧ (∀ f, ∃ w',
        relatorio lower n transacoes (Some f) w =
          Some (Ok (List.filter (fun t => bool_decide (lower (fst t) = lower f)) ts), w') ∧
        heap w' !! transacoes = Some (OExtrato ts)).
Proof.
  intros Hts Hn.
  assert (∀ tipo, ∃ w',
    relatorio lower n transacoes tipo w =
      Some (Ok (List.filter (aceita lower tipo) ts), w') ∧
    heap w' !! transacoes = Some (OExtrato ts)) as Hgeral.
  { intros tipo. unfold relatorio, gerar_relatorio, novo. simpl.
    pose proof (fresh_ne _ _ _ Hts) as Hne.
    eexists. split.
    - rewrite (gerador_consumir _ transacoes tipo ts n 0); simpl;
        [reflexivity | done | apply lookup_insert_eq
        | by rewrite lookup_insert_ne | lia].
    - simpl. by rewrite !lookup_insert_ne. }
  split.
  - destruct (Hgeral None) as (w' & Hrun & Hh). exists w'.
    simpl in Hrun. by rewrite filter_todos in Hrun.
  - intros f. apply (Hgeral (Some f)).
Qed.

(** *** The account iterator *)

Lemma ler_contas_ok w r cs :
  heap w !! r = Some (OContas cs) → ler_contas r w = (Ok cs, w).
Proof. intros H. unfold ler_contas. by rewrite H. Qed.

Lemma next_yield it contas i cs conta t w :
  heap w !! it = Some (OContasIterator contas i) →
  heap w !! contas = Some (OContas cs) →
  cs !! i = Some conta →
  resumo_de conta t →
  ContasIterator.__next__ it w =
    (Ok t, com_heap (<[it := OContasIterator contas (S i)]> (heap w)) w).
Proof.
  intros Hit Hcs Hi (Hn & (u & Hu & Hnome) & Hs).
  unfold ContasIterator.__next__, ler_iterador, mbind, M_bind, ligar.
  rewrite Hit, (ler_contas_ok _ _ _ Hcs).
  rewrite bool_decide_eq_true_2 by (by eapply lookup_lt_Some).
  rewrite Hi. unfold item, guardar, retornar. simpl.
  rewrite Hn, Hu. simpl. rewrite Hnome, Hs. simpl.
  by destruct t as [[? ?] ?].
Qed.

Lemma next_fim it contas i cs w :
  heap w !! it = Some (OContasIterator contas i) →
  heap w !! contas = Some (OContas cs) →
  (length cs ≤ i)%nat →
  ContasIterator.__next__ it w = (Raise StopIteration, w).
Proof.
  intros Hit Hcs Hi.
  unfold ContasIterator.__next__, ler_iterador, mbind, M_bind, ligar.
  rewrite Hit, (ler_contas_ok _ _ _ Hcs).
  by rewrite bool_decide_eq_false_2 by lia.
Qed.

(** An advance that signals exhaustion found the index at or past the end
    of the list: inside the list it returns or raises another error. *)
Lemma next_stop_inv it contas i cs w :
  heap w !! it = Some (OContasIterator contas i) →
  heap w !! contas = Some (OContas cs) →
  fst (ContasIterator.__next__ it w) = Raise StopIteration →
  (length cs ≤ i)%nat.
Proof.
  intros Hit Hcs.
  unfold ContasIterator.__next__, ler_iterador, mbind, M_bind, ligar.
  rewrite Hit, (ler_contas_ok _ _ _ Hcs).
  destruct (bool_decide_reflect (i < length cs)%nat) as [Hlt|]; [|lia].
  destruct (lookup_lt_is_Some_2 cs i Hlt) as [conta Hc]. rewrite Hc.
  unfold item, guardar, retornar, levantar. simpl.
  destruct (conta !! "numero_conta"%string); simpl; [|done].
  destruct (conta !! "usuario"%string) as [[| |u|]|]; simpl; try done.
  destruct (u !! "nome"%string); simpl; [|done].
  destruct (conta !! "saldo"%string); simpl; done.
Qed.

Lemma com_heap_id w r o :
  heap w !! r = Some o → com_heap (<[r := o]> (heap w)) w = w.
Proof. intros H. destruct w. unfold com_heap. simpl in *. by rewrite insert_id. Qed.

(** Draining an iterator standing at index [i] gives the summaries from
    [i] on and leaves it at the end of the list. *)
Lemma consumir_contas it contas cs tuplas (n : nat) :
  ∀ i w,
    it ≠ contas →
    heap w !! it = Some (OContasIterator contas i) →
    heap w !! contas = Some (OContas cs) →
    Forall2 resumo_de cs tuplas →
    (i ≤ length cs)%nat →
    (length cs - i < n)%nat →
    consumir n (ContasIterator.__next__ it) w =
      Some (Ok (drop i tuplas),
            com_heap (<[it := OContasIterator contas (length cs)]> (heap w)) w).
Proof.
  induction n as [| n IH]; intros i w Hne Hit Hcs Hall Hi Hn; [lia|].
  simpl. destruct (decide (i < length cs)%nat) as [Hlt | Hge].
  - destruct (lookup_lt_is_Some_2 cs i Hlt) as [conta Hc].
    destruct (Forall2_lookup_l _ _ _ _ _ Hall Hc) as (t & Ht & Hres).
    rewrite (next_yield _ _ _ _ _ _ _ Hit Hcs Hc Hres).
    rewrite (IH (S i)); simpl.
    + by rewrite insert_insert_eq, (drop_S _ _ _ Ht).
    + done.
    + apply lookup_insert_eq.
    + by rewrite lookup_insert_ne.
    + done.
    + lia.
    + lia.
  - assert (i = length cs) as -> by lia.
    rewrite (next_fim _ _ _ _ _ Hit Hcs) by lia.
    rewrite (com_heap_id _ _ _ Hit).
    rewrite drop_ge; [done|]. by rewrite <- (Forall2_length _ _ _ Hall).
Qed.

Lemma percorrer_ok contas cs tuplas n w :
  heap w !! contas = Some (OContas cs) →
  Forall2 resumo_de cs tuplas →
  (length cs < n)%nat →
  percorrer n contas w =
    Some (Ok tuplas,
          com_heap (<[fresh (dom (heap w)) := OContasIterator contas (length cs)]>
                      (heap w)) w).
Proof.
  intros Hcs Hall Hn.
  unfold percorrer, ContasIterator.__init__, ContasIterator.__iter__, novo,
    retornar, mbind, M_bind, ligar. simpl.
  pose proof (fresh_ne _ _ _ Hcs) as Hne.
  rewrite (consumir_contas _ contas cs tuplas n 0); simpl.
  - by rewrite insert_insert_eq.
  - done.
  - apply lookup_insert_eq.
  - by rewrite lookup_insert_ne.
  - done.
  - lia.
  - lia.
Qed.

(** C7. Over a directory whose accounts have the summaries [tuplas], a
    fresh iterator run to exhaustion yields exactly [tuplas], one tuple
    [(numero_conta, nome, saldo)] per account in list order; the directory
    is left as it was, and a second fresh iterator over it yields
    [tuplas] again. *)
Theorem percorrer_spec (contas : Ref) (cs : list (gmap string Valor))
    (tuplas : list (Valor * string * Valor)) (n : nat) (w : World) :
  heap w !! contas = Some (OContas cs) →
  Forall2 resumo_de cs tuplas →
  (length cs < n)%nat →
  length tuplas = length cs ∧
  ∃ w1, percorrer n contas w = Some (Ok tuplas, w1) ∧
        heap w1 !! contas = Some (OContas cs) ∧
        ∃ w2, percorrer n contas w1 = Some (Ok tuplas, w2).
Proof.
  intros Hcs Hall Hn. split; [by rewrite (Forall2_length _ _ _ Hall)|].
  eexists. split; [by apply percorrer_ok|].
  assert (heap (com_heap (<[fresh (dom (heap w)) := OContasIterator contas (length cs)]>
                            (heap w)) w) !! contas = Some (OContas cs)) as Hcs1.
  { simpl. rewrite lookup_insert_ne; [done|]. by eapply fresh_ne. }
  split; [done|].
  eexists. by apply percorrer_ok.
Qed.

(** C10, as the code has it.  An advance that signals exhaustion leaves
    the world as it was, and every later advance of the same instance
    signals exhaustion again as long as the directory is no longer than it
    was then; in particular any number of advances in a row.  A fresh
    iterator over an empty directory signals exhaustion on its first
    advance, and run to exhaustion it yields nothing. *)
Theorem exaustao_estavel (it contas : Ref) (i : nat) (cs : list (gmap string Valor))
    (w : World) :
  heap w !! it = Some (OContasIterator contas i) →
  heap w !! contas = Some (OContas cs) →
  (fst (ContasIterator.__next__ it w) = Raise StopIteration →
     ContasIterator.__next__ it w = (Raise StopIteration, w) ∧
     ∀ w2 cs2,
       heap w2 !! it = Some (OContasIterator contas i) →
       heap w2 !! contas = Some (OContas cs2) →
       (length cs2 ≤ length cs)%nat →
       ContasIterator.__next__ it w2 = (Raise StopIteration, w2))
  ∧ (cs = [] → ∀ n, (0 < n)%nat →
     ∃ it0 w1,
       ContasIterator.__init__ contas w = (Ok it0, w1) ∧
       ContasIterator.__next__ it0 w1 = (Raise StopIteration, w1) ∧
       percorrer n contas w = Some (Ok [], w1)).
Proof.
  intros Hit Hcs. split.
  - intros Hstop. pose proof (next_stop_inv _ _ _ _ _ Hit Hcs Hstop) as Hlen.
    split; [by eapply next_fim|].
    intros w2 cs2 Hit2 Hcs2 Hle. eapply next_fim; [done.. | lia].
  - intros -> n Hn.
    pose proof (fresh_ne _ _ _ Hcs) as Hne.
    eexists _, _. split; [reflexivity|].
    assert (ContasIterator.__next__ (fresh (dom (heap w)))
              (com_heap (<[fresh (dom (heap w)) := OContasIterator contas 0]> (heap w)) w)
            = (Raise StopIteration,
               com_heap (<[fresh (dom (heap w)) := OContasIterator contas 0]> (heap w)) w))
      as Hfim.
    { eapply next_fim; simpl; [apply lookup_insert_eq | |].
      - by rewrite lookup_insert_ne.
      - simpl. lia. }
    split; [exact Hfim|].
    unfold percorrer, ContasIterator.__init__, ContasIterator.__iter__, novo,
      retornar, mbind, M_bind, ligar. simpl.
    destruct n as [|n]; [lia|]. simpl. by rewrite Hfim.
Qed.

(** *** The decorator *)

(** C9. For every function, argument pack and world, the decorated call
    gives the result of the function itself, returned value or raised
    exception alike.  The store and the input it leaves are those the
    function left, and the console is the function's console followed by
    the audit line, which is written only when the function returned and
    carries the clock reading taken after it. *)
Theorem registrar_transacao_spec {A B} (nome : string) (func : A → M B)
    (args : A) (w : World) :
  let fw := func args w in
  let dw := registrar_transacao upper nome func args w in
  fst dw = fst fw ∧
  heap (snd dw) = heap (snd fw) ∧
  stdin (snd dw) = stdin (snd fw) ∧
  stdout (snd dw) =
    stdout (snd fw) ++
      match fst fw with
      | Ok _ => [LTransacao (relogio (snd fw) (leituras (snd fw))) (upper nome)]
      | Raise _ => []
      end.
Proof.
  passo. destruct (func args w) as [[r | e] w1]; simpl.
  - done.
  - by rewrite app_nil_r.
Qed.

(** *** Opening an account *)

Lemma filtrar_nenhum cpf us :
  Forall (fun u : gmap string string => is_Some (u !! "cpf"%string)) us →
  Forall (fun u : gmap string string => u !! "cpf"%string ≠ Some cpf) us →
  filtrar cpf us = Ok [].
Proof.
  induction us as [| u us IH]; intros Hcpf Hno; simpl; [done|].
  inversion Hcpf as [| ? ? [c Hc] Hcpf']; subst.
  inversion Hno as [| ? ? Hu Hno']; subst.
  rewrite Hc, (IH Hcpf' Hno').
  rewrite bool_decide_eq_false_2; [done|]. congruence.
Qed.

Lemma filtrar_total cpf us :
  Forall (fun u : gmap string string => is_Some (u !! "cpf"%string)) us →
  ∃ fs, filtrar cpf us = Ok fs.
Proof.
  induction us as [| u us IH]; intros Hcpf; simpl; [eauto|].
  inversion Hcpf as [| ? ? [c Hc] Hcpf']; subst.
  destruct (IH Hcpf') as [fs Hfs]. rewrite Hc, Hfs. eauto.
Qed.

Lemma filtrar_primeiro cpf antes u depois :
  Forall (fun u : gmap string string => is_Some (u !! "cpf"%string))
    (antes ++ u :: depois) →
  Forall (fun x : gmap string string => x !! "cpf"%string ≠ Some cpf) antes →
  u !! "cpf"%string = Some cpf →
  ∃ fs, filtrar cpf (antes ++ u :: depois) = Ok (u :: fs).
Proof.
  induction antes as [| x antes IH]; intros Hcpf Hno Hu; simpl in *.
  - inversion Hcpf as [| ? ? _ Hcpf']; subst.
    destruct (filtrar_total cpf depois Hcpf') as [fs Hfs].
    rewrite Hu, Hfs, bool_decide_eq_true_2 by done. eauto.
  - inversion Hcpf as [| ? ? [c Hc] Hcpf']; subst.
    inversion Hno as [| ? ? Hx Hno']; subst.
    destruct (IH Hcpf' Hno' Hu) as [fs Hfs].
    rewrite Hc, Hfs, bool_decide_eq_false_2 by congruence. eauto.
Qed.

Lemma ler_usuarios_ok w r us :
  heap w !! r = Some (OUsuarios us) → ler_usuarios r w = (Ok us, w).
Proof. intros H. unfold ler_usuarios. by rewrite H. Qed.

(** C8, as the code has it.  [criar_conta] reads the identifier from the
    console.  When no registered user carries it, the call returns [None],
    prints the not-found line and leaves the store as it was.  When [u] is
    the first registered user carrying it, the call returns a new dict with
    exactly the five entries agency, supplied account number, owner [u],
    balance 0 and a new empty statement list. *)
Theorem criar_conta_spec (agencia : string) (numero_conta : Z) (usuarios : Ref)
    (us : list (gmap string string)) (cpf : string) (resto : list string) (w : World) :
  heap w !! usuarios = Some (OUsuarios us) →
  stdin w = cpf :: resto →
  Forall (fun u : gmap string string => is_Some (u !! "cpf"%string)) us →
  let lido := com_stdin resto (com_linha (LPrompt "Informe o CPF do titular: ") w) in
  (Forall (fun u : gmap string string => u !! "cpf"%string ≠ Some cpf) us →
     criar_conta upper agencia numero_conta usuarios w =
       (Ok None,
        registro upper "criar_conta" (com_linha LUsuarioNaoEncontrado lido)))
  ∧ (∀ antes u depois,
       us = antes ++ u :: depois →
       Forall (fun x : gmap string string => x !! "cpf"%string ≠ Some cpf) antes →
       u !! "cpf"%string = Some cpf →
       let vazio := fresh (dom (heap w)) in
       criar_conta upper agencia numero_conta usuarios w =
         (Ok (Some (<["agencia"%string := VTexto agencia]>
                   (<["numero_conta"%string := VNumero numero_conta]>
                   (<["usuario"%string := VUsuario u]>
                   (<["saldo"%string := VNumero 0]>
                   (<["extrato"%string := VLista vazio]> ∅)))))),
          registro upper "criar_conta"
            (com_heap (<[vazio := OExtrato []]> (heap w))
               (com_linha LContaCriada lido)))).
Proof.
  intros Hus Hin Hcpf lido. split.
  - intros Hno. unfold criar_conta. apply registrar_ok.
    unfold criar_conta_func, filtrar_usuario, input, ler_linha, print,
      mbind, M_bind, ligar. simpl.
    rewrite Hin. rewrite (ler_usuarios_ok _ usuarios us) by done.
    by rewrite (filtrar_nenhum cpf us Hcpf Hno).
  - intros antes u depois -> Hno Hu vazio. unfold criar_conta. apply registrar_ok.
    unfold criar_conta_func, filtrar_usuario, input, ler_linha, print,
      mbind, M_bind, ligar. simpl.
    rewrite Hin. rewrite (ler_usuarios_ok _ usuarios (antes ++ u :: depois)) by done.
    destruct (filtrar_primeiro cpf antes u depois Hcpf Hno Hu) as [fs Hfs].
    rewrite Hfs. simpl.
    rewrite bool_decide_eq_true_2; [done|].
    intros ->. by rewrite lookup_empty in Hu.
Qed.

End Propriedades.

(** * Runs on the sample data *)

Lemma saldo_e_soma_do_extrato_witness :
  ∃ c' w' ts,
    executar Exemplo.upper (take 3 Exemplo.dia) Exemplo.caixa0 Exemplo.mundo = (Ok c', w') ∧
    cx_extrato c' = Exemplo.r_extrato ∧
    heap w' !! cx_extrato c' = Some (OExtrato ts) ∧
    cx_saldo c' = soma ts.
Proof.
  apply (saldo_e_soma_do_extrato Exemplo.upper Exemplo.dia 3 Exemplo.caixa0 Exemplo.mundo);
    reflexivity.
Defined.

Lemma sacar_prioridade_witness :
  stdout (snd (sacar Exemplo.upper (mkSacar 70 1000 Exemplo.r_extrato 500 5 3) Exemplo.mundo)) =
    [LSaldoInsuficiente; LTransacao "03/11/2026 12:00:00" "SACAR"] ∧
  stdout (snd (sacar Exemplo.upper (mkSacar 700 600 Exemplo.r_extrato 500 5 3) Exemplo.mundo)) =
    [LExcedeLimite; LTransacao "03/11/2026 12:00:00" "SACAR"] ∧
  stdout (snd (sacar Exemplo.upper (mkSacar 700 100 Exemplo.r_extrato 500 3 3) Exemplo.mundo)) =
    [LMaximoSaques; LTransacao "03/11/2026 12:00:00" "SACAR"].
Proof.
  split; [|split].
  - rewrite (proj1 (sacar_prioridade Exemplo.upper (mkSacar 70 1000 Exemplo.r_extrato 500 5 3) Exemplo.mundo));
      [reflexivity | simpl; lia].
  - rewrite (proj1 (proj2 (sacar_prioridade Exemplo.upper (mkSacar 700 600 Exemplo.r_extrato 500 5 3)
                             Exemplo.mundo)));
      [reflexivity | simpl; lia | simpl; lia].
  - rewrite (proj2 (proj2 (sacar_prioridade Exemplo.upper (mkSacar 700 100 Exemplo.r_extrato 500 3 3)
                             Exemplo.mundo)));
      [reflexivity | simpl; lia | simpl; lia | simpl; lia].
Defined.

Lemma sacar_erro_sem_efeito_witness :
  fst (sacar Exemplo.upper (mkSacar 70 1000 Exemplo.r_extrato 500 0 3) Exemplo.mundo) = Ok (70, Exemplo.r_extrato, 0) ∧
  heap (snd (sacar Exemplo.upper (mkSacar 70 1000 Exemplo.r_extrato 500 0 3) Exemplo.mundo)) = heap Exemplo.mundo.
Proof.
  apply (sacar_erro_sem_efeito Exemplo.upper (mkSacar 70 1000 Exemplo.r_extrato 500 0 3) Exemplo.mundo
           (snd (sacar Exemplo.upper (mkSacar 70 1000 Exemplo.r_extrato 500 0 3) Exemplo.mundo))
           (fst (sacar Exemplo.upper (mkSacar 70 1000 Exemplo.r_extrato 500 0 3) Exemplo.mundo))
           LSaldoInsuficiente [LTransacao "03/11/2026 12:00:00" "SACAR"]);
    reflexivity.
Defined.

Lemma depositar_spec_witness :
  depositar Exemplo.upper 0 100 Exemplo.r_extrato Exemplo.mundo =
    (Ok (100, Exemplo.r_extrato),
     registro Exemplo.upper "depositar"
       (com_linha (LDepositoOk 100)
          (com_heap (<[Exemplo.r_extrato := OExtrato [("Depósito"%string, 100)]]> (heap Exemplo.mundo))
             Exemplo.mundo))) ∧
  depositar Exemplo.upper 100 (-5) Exemplo.r_extrato Exemplo.mundo =
    (Ok (100, Exemplo.r_extrato),
     registro Exemplo.upper "depositar" (com_linha LDepositoInvalido Exemplo.mundo)).
Proof.
  split.
  - apply (proj1 (depositar_spec Exemplo.upper 0 100 Exemplo.r_extrato [] Exemplo.mundo eq_refl)). lia.
  - apply (proj2 (depositar_spec Exemplo.upper 100 (-5) Exemplo.r_extrato [] Exemplo.mundo eq_refl)). lia.
Defined.

Lemma limite_de_saques_witness :
  ∃ c' w',
    executar Exemplo.upper Exemplo.dia Exemplo.caixa0 Exemplo.mundo = (Ok c', w') ∧
    cx_numero_saques c' = 3 ∧
    sacar Exemplo.upper (mkSacar (cx_saldo c') 10 (cx_extrato c') 500 (cx_numero_saques c') 3) w' =
      (Ok (cx_saldo c', cx_extrato c', cx_numero_saques c'),
       registro Exemplo.upper "sacar" (com_linha LMaximoSaques w')).
Proof.
  destruct (limite_de_saques Exemplo.upper Exemplo.dia Exemplo.caixa0 Exemplo.mundo [] 3
              eq_refl eq_refl) as [(c' & w' & saida & Hrun & Hout & Hn & Hnext) _].
  exists c', w'.
  pose proof (f_equal fst Hrun) as Hc. vm_compute in Hc.
  injection Hc as Hc. subst c'.
  split; [exact Hrun|]. split; [reflexivity|].
  apply Hnext.
  - rewrite <- Hn. reflexivity.
  - lia.
  - simpl. lia.
  - lia.
Defined.

Lemma gerar_relatorio_spec_witness :
  option_map fst (relatorio Exemplo.lower 4 Exemplo.r_extrato None Exemplo.mundo_movimentado) =
    Some (Ok Exemplo.movimentos) ∧
  option_map fst (relatorio Exemplo.lower 4 Exemplo.r_extrato (Some "SAQUE"%string) Exemplo.mundo_movimentado) =
    Some (Ok [("Saque"%string, -30); ("Saque"%string, -20)]).
Proof.
  destruct (gerar_relatorio_spec Exemplo.lower Exemplo.r_extrato Exemplo.movimentos Exemplo.mundo_movimentado 4
              eq_refl ltac:(simpl; lia)) as [(w1 & H1 & _) H2].
  destruct (H2 "SAQUE"%string) as (w2 & H3 & _).
  rewrite H1, H3. split; reflexivity.
Defined.

Lemma percorrer_spec_witness :
  ∃ w1, percorrer 2 Exemplo.r_contas Exemplo.mundo_com_conta = Some (Ok [Exemplo.resumo_da_ana], w1) ∧
        heap w1 !! Exemplo.r_contas = Some (OContas [Exemplo.conta_da_ana]) ∧
        ∃ w2, percorrer 2 Exemplo.r_contas w1 = Some (Ok [Exemplo.resumo_da_ana], w2).
Proof.
  apply (percorrer_spec Exemplo.r_contas [Exemplo.conta_da_ana] [Exemplo.resumo_da_ana] 2
           Exemplo.mundo_com_conta).
  - reflexivity.
  - repeat constructor. exists Exemplo.ana. split; reflexivity.
  - simpl. lia.
Defined.

Lemma criar_conta_spec_witness :
  fst (criar_conta Exemplo.upper "0001" 1 Exemplo.r_usuarios Exemplo.mundo) = Ok (Some Exemplo.conta_da_ana) ∧
  criar_conta Exemplo.upper "0001" 1 Exemplo.r_usuarios (com_stdin ["222"%string] Exemplo.mundo) =
    (Ok None,
     registro Exemplo.upper "criar_conta"
       (com_linha LUsuarioNaoEncontrado
          (com_stdin [] (com_linha (LPrompt "Informe o CPF do titular: ")
                           (com_stdin ["222"%string] Exemplo.mundo))))).
Proof.
  split.
  - rewrite (proj2 (criar_conta_spec Exemplo.upper "0001" 1 Exemplo.r_usuarios [Exemplo.ana] "111"
                      ["222"%string] Exemplo.mundo eq_refl eq_refl
                      ltac:(repeat constructor; by eexists))
               [] Exemplo.ana [] eq_refl ltac:(constructor) eq_refl).
    reflexivity.
  - apply (proj1 (criar_conta_spec Exemplo.upper "0001" 1 Exemplo.r_usuarios [Exemplo.ana] "222" []
                    (com_stdin ["222"%string] Exemplo.mundo) eq_refl eq_refl
                    ltac:(repeat constructor; by eexists))).
    repeat constructor. discriminate.
Defined.

Lemma exaustao_estavel_witness :
  ContasIterator.__next__ Exemplo.r_iterador Exemplo.mundo = (Raise StopIteration, Exemplo.mundo) ∧
  ∃ it0 w1,
    ContasIterator.__init__ Exemplo.r_contas Exemplo.mundo = (Ok it0, w1) ∧
    percorrer 1 Exemplo.r_contas Exemplo.mundo = Some (Ok [], w1).
Proof.
  destruct (exaustao_estavel Exemplo.r_iterador Exemplo.r_contas 0%nat [] Exemplo.mundo eq_refl eq_refl) as [H1 H2].
  split.
  - apply H1. reflexivity.
  - destruct (H2 eq_refl 1%nat ltac:(lia)) as (it0 & w1 & Hi & _ & Hp). eauto.
Defined.

(** * Where the code departs from the specification *)

Lemma conta_nova_numeros (agencia : string) (numero_conta : Z)
    (u : gmap string string) (r : Ref) (k : string) (n : Z) :
  (<["agencia"%string := VTexto agencia]>
     (<["numero_conta"%string := VNumero numero_conta]>
     (<["usuario"%string := VUsuario u]>
     (<["saldo"%string := VNumero 0]>
     (<["extrato"%string := VLista r]> (∅ : gmap string Valor)))))) !! k = Some (VNumero n) →
  (k = "numero_conta"%string ∧ n = numero_conta) ∨ (k = "saldo"%string ∧ n = 0).
Proof.
  rewrite !lookup_insert, lookup_empty.
  repeat case_decide; intros Hk; simplify_eq; eauto.
Qed.

(** C8, as stated, fails: the account [criar_conta] returns for a
    registered identifier has the five entries agency, number, owner,
    balance and statement, and its only numbers are the account number and
    the balance.  It holds no withdrawal count. *)
Lemma conta_nova_sem_contador :
  ∃ conta w',
    criar_conta Exemplo.upper "0001" 1 Exemplo.r_usuarios Exemplo.mundo = (Ok (Some conta), w') ∧
    conta !! "numero_saques"%string = None ∧
    size conta = 5%nat ∧
    ∀ k n, conta !! k = Some (VNumero n) →
           (k = "numero_conta"%string ∧ n = 1) ∨ (k = "saldo"%string ∧ n = 0).
Proof.
  exists Exemplo.conta_da_ana. eexists. split; [vm_compute; reflexivity|].
  split; [reflexivity|]. split; [reflexivity|].
  intros k n. apply conta_nova_numeros.
Qed.

(** C10, as stated, fails: an iterator over the empty directory signals
    exhaustion, and after [contas.append(conta)] the next advance of the
    same instance yields the new account. *)
Lemma exaustao_nao_e_definitiva :
  fst (ContasIterator.__next__ Exemplo.r_iterador Exemplo.mundo) = Raise StopIteration ∧
  fst ((append_conta Exemplo.r_contas Exemplo.conta_da_ana;; ContasIterator.__next__ Exemplo.r_iterador)
         (snd (ContasIterator.__next__ Exemplo.r_iterador Exemplo.mundo))) =
    Ok Exemplo.resumo_da_ana.
Proof. split; vm_compute; reflexivity. Qed.

(** * Further properties of the code *)

Section Extensoes.

Variable lower upper : string -> string.

(** *** Deposits and withdrawals over a whole session *)

(** The three ways a turn of the loop can end: refused with nothing
    changed, a deposit committed, a withdrawal committed. *)
Lemma opcao_casos (op : Operacao) (c : Caixa) (w : World) (ts : list Tupla) :
  heap w !! cx_extrato c = Some (OExtrato ts) →
  (∃ nome l,
     opcao upper op c w = (Ok c, registro upper nome (com_linha l w)) ∧
     (l = LDepositoInvalido ∨ erro_de_saque l = true))
  ∨ (∃ v,
       op = OpDepositar v ∧ v > 0 ∧
       opcao upper op c w =
         (Ok (mkCaixa (cx_saldo c + v) (cx_extrato c) (cx_numero_saques c)),
          registro upper "depositar"
            (com_linha (LDepositoOk v)
               (com_heap (<[cx_extrato c := OExtrato (ts ++ [("Depósito"%string, v)])]>
                            (heap w)) w))))
  ∨ (∃ v l ls,
       op = OpSacar v l ls ∧ v > 0 ∧ v <= cx_saldo c ∧ v <= l ∧
       cx_numero_saques c < ls ∧
       opcao upper op c w =
         (Ok (mkCaixa (cx_saldo c - v) (cx_extrato c) (cx_numero_saques c + 1)),
          registro upper "sacar"
            (com_linha (LSaqueOk v)
               (com_heap (<[cx_extrato c := OExtrato (ts ++ [("Saque"%string, - v)])]>
                            (heap w)) w)))).
Proof.
  intros Hts. destruct op as [v | v l ls]; unfold opcao, mbind, M_bind, ligar.
  - destruct (decide (v > 0)) as [Hv | Hv].
    + right. left. exists v. repeat split; [done|].
      unfold depositar.
      by rewrite (registrar_ok upper _ _ _ _ _ _
                    (depositar_func_feito (cx_saldo c) v _ ts w Hts Hv)).
    + left. exists "depositar"%string, LDepositoInvalido. split; [|by left].
      unfold depositar.
      rewrite (registrar_ok upper _ _ _ _ _ _
                 (depositar_func_recusa (cx_saldo c) v (cx_extrato c) w ltac:(lia))).
      by destruct c.
  - set (a := mkSacar (cx_saldo c) v (cx_extrato c) l (cx_numero_saques c) ls).
    destruct (sacar_casos upper a w ts Hts)
      as [(e & He & Hrun) | (Hv & Hs & Hl & Hn & Hrun)]; rewrite Hrun; simpl.
    + left. exists "sacar"%string, e. split; [by destruct c | by right].
    + right. right. exists v, l, ls. repeat split; done.
Qed.

(** An invariant of single turns, for the operations satisfying [Q], is an
    invariant of every session made of such operations. *)
Lemma executar_invariante (Q : Operacao → Prop) (P : Caixa → World → Prop) :
  (∀ op c w c' w', Q op → P c w → opcao upper op c w = (Ok c', w') → P c' w') →
  ∀ ops c w ts,
    Forall Q ops →
    heap w !! cx_extrato c = Some (OExtrato ts) →
    P c w →
    ∃ c' w', executar upper ops c w = (Ok c', w') ∧ P c' w'.
Proof.
  intros Hstep ops. induction ops as [| op ops IH]; intros c w ts HQ Hts HP.
  - exists c, w. by split.
  - inversion HQ as [| ? ? Hop HQ']; subst.
    destruct (opcao_inv upper op c w ts Hts)
      as (c1 & w1 & ts1 & s1 & Hrun & He & Hh & _).
    rewrite <- He in Hh.
    destruct (IH c1 w1 ts1 HQ' Hh (Hstep _ _ _ _ _ Hop HP Hrun)) as (c2 & w2 & Hrun2 & HP2).
    exists c2, w2. simpl. unfold mbind, M_bind, ligar. by rewrite Hrun, Hrun2.
Qed.

(** X1. Whatever deposits and withdrawals are attempted, a balance that
    starts non-negative is never negative. *)
Theorem saldo_nunca_negativo (ops : list Operacao) (c : Caixa) (w : World)
    (ts : list Tupla) :
  heap w !! cx_extrato c = Some (OExtrato ts) →
  0 <= cx_saldo c →
  ∃ c' w', executar upper ops c w = (Ok c', w') ∧ 0 <= cx_saldo c'.
Proof.
  intros Hts H0.
  destruct (executar_invariante (fun _ => True)
              (fun c w => (∃ ts, heap w !! cx_extrato c = Some (OExtrato ts)) ∧
                          0 <= cx_saldo c)) with (ops := ops) (c := c) (w := w) (ts := ts)
    as (c' & w' & Hrun & _ & Hs); eauto.
  - intros op c0 w0 c1 w1 _ [[ts0 Hts0] Hs0] Hrun.
    destruct (opcao_casos op c0 w0 ts0 Hts0)
      as [(nome & l & Hr & _) | [(v & _ & Hv & Hr) | (v & l & ls & _ & Hv & Hle & _ & _ & Hr)]];
      rewrite Hr in Hrun; simplify_eq; simpl.
    + eauto.
    + rewrite lookup_insert_eq. split; [eauto | lia].
    + rewrite lookup_insert_eq. split; [eauto | lia].
  - by apply Forall_true.
Qed.

(** X2. In a session whose withdrawals all carry the same daily limit, a
    withdrawal count that starts within the limit never exceeds it. *)
Theorem numero_saques_limitado (ops : list Operacao) (maximo : Z) (c : Caixa)
    (w : World) (ts : list Tupla) :
  Forall (fun op => match op with
                    | OpSacar _ _ ls => ls = maximo
                    | OpDepositar _ => True
                    end) ops →
  heap w !! cx_extrato c = Some (OExtrato ts) →
  cx_numero_saques c <= maximo →
  ∃ c' w', executar upper ops c w = (Ok c', w') ∧
           cx_numero_saques c <= cx_numero_saques c' <= maximo.
Proof.
  intros Hops Hts Hn.
  destruct (executar_invariante
              (fun op => match op with
                         | OpSacar _ _ ls => ls = maximo
                         | OpDepositar _ => True
                         end)
              (fun c0 w0 => (∃ ts, heap w0 !! cx_extrato c0 = Some (OExtrato ts)) ∧
                            cx_numero_saques c <= cx_numero_saques c0 <= maximo))
    with (ops := ops) (c := c) (w := w) (ts := ts)
    as (c' & w' & Hrun & _ & Hs); eauto; [|split; [eauto | lia]].
  intros op c0 w0 c1 w1 Hop [[ts0 Hts0] Hs0] Hrun.
  destruct (opcao_casos op c0 w0 ts0 Hts0)
    as [(nome & l & Hr & _) | [(v & _ & Hv & Hr) | (v & l & ls & -> & Hv & Hle & _ & Hlt & Hr)]];
    rewrite Hr in Hrun; simplify_eq; simpl.
  - eauto.
  - rewrite lookup_insert_eq. split; [eauto | lia].
  - rewrite lookup_insert_eq. split; [eauto | lia].
Qed.

(** X3. The statement only grows: after any session it is the old
    statement followed by new entries, each a ["Depósito"] with a positive
    amount or a ["Saque"] with a negative one. *)
Theorem extrato_so_cresce (ops : list Operacao) (c : Caixa) (w : World)
    (ts : list Tupla) :
  heap w !! cx_extrato c = Some (OExtrato ts) →
  ∃ c' w' novos,
    executar upper ops c w = (Ok c', w') ∧
    heap w' !! cx_extrato c = Some (OExtrato (ts ++ novos)) ∧
    Forall (fun t : Tupla =>
              (fst t = "Depósito"%string ∧ snd t > 0) ∨
              (fst t = "Saque"%string ∧ snd t < 0)) novos.
Proof.
  intros Hts.
  destruct (executar_invariante (fun _ => True)
              (fun c0 w0 =>
                 cx_extrato c0 = cx_extrato c ∧
                 ∃ novos,
                   heap w0 !! cx_extrato c = Some (OExtrato (ts ++ novos)) ∧
                   Forall (fun t : Tupla =>
                             (fst t = "Depósito"%string ∧ snd t > 0) ∨
                             (fst t = "Saque"%string ∧ snd t < 0)) novos))
    with (ops := ops) (c := c) (w := w) (ts := ts)
    as (c' & w' & Hrun & _ & novos & Hh & Hall); eauto.
  - intros op c0 w0 c1 w1 _ (He & novos & Hh & Hall) Hrun.
    rewrite <- He in Hh.
    destruct (opcao_casos op c0 w0 _ Hh)
      as [(nome & l & Hr & _) | [(v & _ & Hv & Hr) | (v & l & ls & _ & Hv & _ & _ & _ & Hr)]];
      rewrite Hr in Hrun; simplify_eq; simpl; (split; [done|]).
    + exists novos. by rewrite <- He.
    + exists (novos ++ [("Depósito"%string, v)]). rewrite <- He, lookup_insert_eq, app_assoc.
      split; [done|]. apply Forall_app. split; [done|]. repeat constructor. simpl. lia.
    + exists (novos ++ [("Saque"%string, - v)]). rewrite <- He, lookup_insert_eq, app_assoc.
      split; [done|]. apply Forall_app. split; [done|].
      constructor; [|done]. right. simpl. split; [done | lia].
  - by apply Forall_true.
  - split; [done|]. exists []. by rewrite app_nil_r.
  - by exists c', w', novos.
Qed.

(** What a session leaves alone, and what it always writes. *)
Lemma executar_moldura (ops : list Operacao) :
  ∀ c w ts,
    heap w !! cx_extrato c = Some (OExtrato ts) →
    ∃ c' w' saida,
      executar upper ops c w = (Ok c', w') ∧
      stdout w' = stdout w ++ saida ∧
      length saida = (2 * length ops)%nat ∧
      length (List.filter (fun l => match l with LTransacao _ _ => true | _ => false end)
                saida) = length ops ∧
      leituras w' = (leituras w + length ops)%nat ∧
      stdin w' = stdin w ∧
      relogio w' = relogio w ∧
      ∀ r, r ≠ cx_extrato c → heap w' !! r = heap w !! r.
Proof.
  induction ops as [| op ops IH]; intros c w ts Hts.
  - exists c, w, []. simpl. rewrite app_nil_r. repeat split; try done; lia.
  - destruct (opcao_inv upper op c w ts Hts)
      as (c1 & w1 & ts1 & s1 & Hrun & He & Hh & _).
    assert (∃ l nome,
              (match l with LTransacao _ _ => false | _ => true end = true) ∧
              stdout w1 = stdout w ++ [l; LTransacao (relogio w (leituras w)) (upper nome)] ∧
              leituras w1 = S (leituras w) ∧ stdin w1 = stdin w ∧
              relogio w1 = relogio w ∧
              ∀ r, r ≠ cx_extrato c → heap w1 !! r = heap w !! r) as Hum.
    { destruct (opcao_casos op c w ts Hts)
        as [(nome & l & Hr & Hl) | [(v & _ & Hv & Hr) | (v & l & ls & _ & Hv & _ & _ & _ & Hr)]];
        rewrite Hr in Hrun; simplify_eq; simpl.
      - exists l, nome. rewrite <- app_assoc. repeat split; try done.
        destruct Hl as [-> | Hl]; [done | by destruct l].
      - exists (LDepositoOk v), "depositar"%string. rewrite <- app_assoc.
        repeat split; try done. intros r Hr'. by rewrite lookup_insert_ne.
      - exists (LSaqueOk v), "sacar"%string. rewrite <- app_assoc.
        repeat split; try done. intros r Hr'. by rewrite lookup_insert_ne. }
    destruct Hum as (l & nome & Hl & Ho1 & Hc1 & Hi1 & Hr1 & Hf1).
    rewrite <- He in Hh.
    destruct (IH c1 w1 ts1 Hh) as (c2 & w2 & s2 & Hrun2 & Ho2 & Hlen & Haud & Hc2 & Hi2 & Hr2 & Hf2).
    exists c2, w2, ([l; LTransacao (relogio w (leituras w)) (upper nome)] ++ s2).
    simpl. unfold mbind, M_bind, ligar. rewrite Hrun, Hrun2.
    rewrite Ho2, Ho1, <- app_assoc. simpl.
    destruct l; try discriminate; simpl; rewrite Haud, Hlen, Hc2, Hc1, Hi2, Hi1, Hr2, Hr1;
      (repeat split; try done; try lia;
       intros r Hr; rewrite Hf2 by congruence; by apply Hf1).
Qed.


(** X5. Deposits and withdrawals never reach the accounts: after any
    session the directory lists exactly what it listed before, so the
    balance shown for an account does not follow the balance of the
    loop. *)
Theorem listagem_alheia_ao_saldo (ops : list Operacao) (c : Caixa) (w : World)
    (ts : list Tupla) (contas : Ref) (cs : list (gmap string Valor))
    (tuplas : list (Valor * string * Valor)) (n : nat) :
  heap w !! cx_extrato c = Some (OExtrato ts) →
  heap w !! contas = Some (OContas cs) →
  Forall2 resumo_de cs tuplas →
  (length cs < n)%nat →
  ∃ c' w' w1 w2,
    percorrer n contas w = Some (Ok tuplas, w1) ∧
    executar upper ops c w = (Ok c', w') ∧
    percorrer n contas w' = Some (Ok tuplas, w2).
Proof.
  intros Hts Hcs Hall Hn.
  destruct (executar_moldura ops c w ts Hts)
    as (c' & w' & saida & Hrun & _ & _ & _ & _ & _ & _ & Hf).
  assert (heap w' !! contas = Some (OContas cs)) as Hcs'.
  { rewrite Hf; [done|]. intros ->. congruence. }
  eexists c', w', _, _. split; [by apply percorrer_ok|].
  split; [done|]. by apply percorrer_ok.
Qed.

(** X6. The verdict of [sacar] on a statement list: it announces the
    withdrawal exactly when the amount is positive, within the balance and
    the limit, and the count is below the daily limit; it reports an
    invalid amount exactly when the amount is not positive and the three
    other checks pass. *)
Theorem sacar_veredito (a : SacarArgs) (w : World) (ts : list Tupla) :
  heap w !! extrato a = Some (OExtrato ts) →
  ∃ l r w1,
    sacar upper a w = (Ok r, registro upper "sacar" (com_linha l w1)) ∧
    (l = LSaqueOk (valor a) ↔
       valor a > 0 ∧ valor a <= saldo a ∧ valor a <= limite a ∧
       numero_saques a < limite_saques a) ∧
    (l = LValorInvalido ↔
       valor a <= 0 ∧ valor a <= saldo a ∧ valor a <= limite a ∧
       numero_saques a < limite_saques a).
Proof.
  intros Hts. unfold sacar.
  destruct (decide (valor a > saldo a)) as [|H1].
  { eexists _, _, _. split; [by apply registrar_ok, sacar_func_saldo|].
    split; split; try done; lia. }
  destruct (decide (valor a > limite a)) as [|H2].
  { eexists _, _, _. split; [apply registrar_ok, sacar_func_limite; lia|].
    split; split; try done; lia. }
  destruct (decide (numero_saques a >= limite_saques a)) as [|H3].
  { eexists _, _, _. split; [apply registrar_ok, sacar_func_saques; lia|].
    split; split; try done; lia. }
  destruct (decide (valor a > 0)) as [H4|H4].
  - eexists _, _, _. split; [apply registrar_ok, (sacar_func_feito a w ts); [done | lia..]|].
    split; split; try done; lia.
  - eexists _, _, _. split; [apply registrar_ok, sacar_func_invalido; lia|].
    split; split; try done; lia.
Qed.


(** *** The report generator and the statement it reads *)

Lemma append_ok w e ts t :
  heap w !! e = Some (OExtrato ts) →
  append e t w = (Ok tt, com_heap (<[e := OExtrato (ts ++ [t])]> (heap w)) w).
Proof.
  intros H. unfold append, guardar, mbind, M_bind, ligar.
  by rewrite (ler_extrato_ok _ _ _ H).
Qed.

(** X8. The report is lazy: an entry appended to the statement while the
    generator is suspended, wherever its cursor stands, is reported like
    the entries that were there from the start. *)
Theorem gerador_ve_acrescimos (g transacoes : Ref) (tipo : option string) (i : nat)
    (ts : list Tupla) (t : Tupla) (n : nat) (w : World) :
  g ≠ transacoes →
  heap w !! g = Some (OGerador (GSuspenso transacoes tipo i)) →
  heap w !! transacoes = Some (OExtrato ts) →
  (length ts - i < n)%nat →
  ∃ w1 w2,
    append transacoes t w = (Ok tt, w1) ∧
    consumir (S n) (gerador_next lower g) w1 =
      Some (Ok (List.filter (aceita lower tipo) (drop i (ts ++ [t]))), w2).
Proof.
  intros Hne Hg Hts Hn. eexists _, _. split; [by apply append_ok|].
  apply (gerador_consumir lower g transacoes tipo (ts ++ [t]) (S n) i); simpl.
  - done.
  - by rewrite lookup_insert_ne.
  - apply lookup_insert_eq.
  - rewrite length_app. simpl. lia.
Qed.

(** X9. A generator that has run to its end stays at its end: after the
    report has been drained, an entry appended to the statement does not
    bring it back, and the next advance signals exhaustion. *)
Theorem gerador_terminado_nao_volta (g transacoes : Ref) (tipo : option string)
    (i : nat) (ts : list Tupla) (t : Tupla) (n : nat) (w : World) :
  g ≠ transacoes →
  heap w !! g = Some (OGerador (GSuspenso transacoes tipo i)) →
  heap w !! transacoes = Some (OExtrato ts) →
  (length ts - i < n)%nat →
  ∃ xs w1 w2,
    consumir n (gerador_next lower g) w = Some (Ok xs, w1) ∧
    append transacoes t w1 = (Ok tt, w2) ∧
    gerador_next lower g w2 = (Raise StopIteration, w2).
Proof.
  intros Hne Hg Hts Hn. eexists _, _, _.
  split; [by apply (gerador_consumir lower g transacoes tipo ts n i w)|].
  split.
  - apply (append_ok _ _ ts). simpl. by rewrite lookup_insert_ne.
  - unfold gerador_next, ler_gerador, mbind, M_bind, ligar. simpl.
    rewrite lookup_insert_ne by done. by rewrite lookup_insert_eq.
Qed.

(** X10. Advancing a report generator, whatever the store holds, prints
    nothing, reads no input and no clock, and changes no object other
    than the generator itself: the statement is never modified by
    reporting. *)
Theorem gerador_next_moldura (g : Ref) (w : World) :
  stdin (snd (gerador_next lower g w)) = stdin w ∧
  stdout (snd (gerador_next lower g w)) = stdout w ∧
  leituras (snd (gerador_next lower g w)) = leituras w ∧
  ∀ r, r ≠ g → heap (snd (gerador_next lower g w)) !! r = heap w !! r.
Proof.
  unfold gerador_next, ler_gerador, ler_extrato, guardar, levantar, retornar,
    mbind, M_bind, ligar.
  destruct (heap w !! g) as [[| | | | [tr tipo i |]]|]; simpl; try done.
  destruct (heap w !! tr) as [[ts | | | |]|]; simpl; try done.
  destruct (procurar lower tipo (drop i ts) i) as [[t j]|]; simpl;
    (repeat split; try done; intros r Hr; by rewrite lookup_insert_ne).
Qed.

(** *** The account iterator *)

(** X11. The iterator is single-pass: an instance standing at index [i]
    yields only the accounts from [i] on and ends at the end of the list,
    while a fresh instance made afterwards yields all of them again. *)
Theorem iterador_de_uma_passagem (it contas : Ref) (i : nat)
    (cs : list (gmap string Valor)) (tuplas : list (Valor * string * Valor))
    (n : nat) (w : World) :
  it ≠ contas →
  heap w !! it = Some (OContasIterator contas i) →
  heap w !! contas = Some (OContas cs) →
  Forall2 resumo_de cs tuplas →
  (i ≤ length cs)%nat →
  (length cs < n)%nat →
  ∃ w1 w2,
    consumir n (ContasIterator.__next__ it) w = Some (Ok (drop i tuplas), w1) ∧
    heap w1 !! it = Some (OContasIterator contas (length cs)) ∧
    percorrer n contas w1 = Some (Ok tuplas, w2).
Proof.
  intros Hne Hit Hcs Hall Hi Hn. eexists _, _.
  split; [apply (consumir_contas it contas cs tuplas n i w); try done; lia|].
  split; [apply lookup_insert_eq|].
  apply percorrer_ok; try done. simpl. by rewrite lookup_insert_ne.
Qed.

(** X12. An account lacking one of the fields it reads stops the listing:
    the advance that reaches it raises an error other than the
    end-of-iteration signal, and the index has already moved past it, so
    the loop over the directory ends with that error. *)
Theorem conta_incompleta_interrompe (it contas : Ref) (i : nat)
    (cs : list (gmap string Valor)) (conta : gmap string Valor) (n : nat) (w : World) :
  heap w !! it = Some (OContasIterator contas i) →
  heap w !! contas = Some (OContas cs) →
  cs !! i = Some conta →
  (∀ t, ¬ resumo_de conta t) →
  ∃ e,
    e ≠ StopIteration ∧
    ContasIterator.__next__ it w =
      (Raise e, com_heap (<[it := OContasIterator contas (S i)]> (heap w)) w) ∧
    consumir (S n) (ContasIterator.__next__ it) w =
      Some (Raise e, com_heap (<[it := OContasIterator contas (S i)]> (heap w)) w).
Proof.
  intros Hit Hcs Hc Hbad.
  assert (∃ e, e ≠ StopIteration ∧
               ContasIterator.__next__ it w =
                 (Raise e, com_heap (<[it := OContasIterator contas (S i)]> (heap w)) w))
    as (e & He & Hrun).
  { unfold ContasIterator.__next__, ler_iterador, mbind, M_bind, ligar.
    rewrite Hit, (ler_contas_ok _ _ _ Hcs).
    rewrite bool_decide_eq_true_2 by (by eapply lookup_lt_Some).
    rewrite Hc. unfold item, guardar, retornar, levantar. simpl.
    destruct (conta !! "numero_conta"%string) as [numero|] eqn:Hn; simpl;
      [|eexists; (split; [|reflexivity]); discriminate].
    destruct (conta !! "usuario"%string) as [[| |u|]|] eqn:Hu; simpl;
      try (eexists; (split; [|reflexivity]); discriminate).
    destruct (u !! "nome"%string) as [nome|] eqn:Hnome; simpl; [|eexists; (split; [|reflexivity]); discriminate].
    destruct (conta !! "saldo"%string) as [saldo|] eqn:Hs; simpl; [|eexists; (split; [|reflexivity]); discriminate].
    exfalso. apply (Hbad (numero, nome, saldo)).
    split; [done|]. split; [|done]. by exists u. }
  exists e. split; [done|]. split; [done|].
  simpl. rewrite Hrun. by destruct e.
Qed.

(** X13. Advancing an account iterator, whatever the store holds, prints
    nothing, reads no input and no clock, and changes no object other
    than the iterator itself: listing never modifies the directory or an
    account. *)
Theorem next_moldura (it : Ref) (w : World) :
  stdin (snd (ContasIterator.__next__ it w)) = stdin w ∧
  stdout (snd (ContasIterator.__next__ it w)) = stdout w ∧
  leituras (snd (ContasIterator.__next__ it w)) = leituras w ∧
  ∀ r, r ≠ it → heap (snd (ContasIterator.__next__ it w)) !! r = heap w !! r.
Proof.
  unfold ContasIterator.__next__, ler_iterador, ler_contas, guardar, levantar,
    retornar, item, mbind, M_bind, ligar.
  destruct (heap w !! it) as [[| | | contas i |]|]; simpl; try done.
  destruct (heap w !! contas) as [[| | cs | |]|]; simpl; try done.
  destruct (bool_decide (i < length cs)%nat); simpl; [|done].
  destruct (cs !! i) as [conta|]; simpl; [|done].
  destruct (conta !! "numero_conta"%string); simpl;
    [|repeat split; try done; intros ? ?; by rewrite lookup_insert_ne].
  destruct (conta !! "usuario"%string) as [[| |u|]|]; simpl;
    try (repeat split; try done; intros ? ?; by rewrite lookup_insert_ne).
  destruct (u !! "nome"%string); simpl;
    [|repeat split; try done; intros ? ?; by rewrite lookup_insert_ne].
  destruct (conta !! "saldo"%string); simpl;
    repeat split; try done; intros ? ?; by rewrite lookup_insert_ne.
Qed.

(** *** Looking a user up *)

(** On a registry whose users all carry an identifier, the comprehension
    succeeds and its first element is the first user carrying [cpf]. *)
Lemma filtrar_cabeca (cpf : string) (us : list (gmap string string)) :
  Forall (fun u : gmap string string => is_Some (u !! "cpf"%string)) us →
  ∃ fs, filtrar cpf us = Ok fs ∧
    ((head fs = None ∧
      Forall (fun u : gmap string string => u !! "cpf"%string ≠ Some cpf) us)
     ∨ (∃ antes u depois,
          head fs = Some u ∧ us = antes ++ u :: depois ∧
          u !! "cpf"%string = Some cpf ∧
          Forall (fun x : gmap string string => x !! "cpf"%string ≠ Some cpf) antes)).
Proof.
  induction us as [| u us IH]; intros Hcpf; simpl.
  - exists []. split; [done|]. left. by split.
  - inversion Hcpf as [| ? ? [c Hc] Hcpf']; subst.
    destruct (IH Hcpf') as (fs & Hfs & Hcase). rewrite Hc, Hfs.
    destruct (bool_decide_reflect (c = cpf)) as [-> | Hne].
    + eexists. split; [done|]. right. exists [], u, us. by repeat split.
    + exists fs. split; [done|].
      destruct Hcase as [[Hh Hno] | (antes & x & depois & Hh & -> & Hx & Hno)].
      * left. split; [done|]. constructor; [congruence | done].
      * right. exists (u :: antes), x, depois. repeat split; try done.
        constructor; [congruence | done].
Qed.

(** X14. On a registry whose users all carry an identifier,
    [filtrar_usuario] changes nothing and answers [None] exactly when no
    user carries [cpf]; otherwise it answers the first user of the list
    that carries it. *)
Theorem filtrar_usuario_spec (cpf : string) (usuarios : Ref)
    (us : list (gmap string string)) (w : World) :
  heap w !! usuarios = Some (OUsuarios us) →
  Forall (fun u : gmap string string => is_Some (u !! "cpf"%string)) us →
  ∃ o,
    filtrar_usuario cpf usuarios w = (Ok o, w) ∧
    (o = None ↔
       Forall (fun u : gmap string string => u !! "cpf"%string ≠ Some cpf) us) ∧
    (∀ u, o = Some u →
       ∃ antes depois,
         us = antes ++ u :: depois ∧ u !! "cpf"%string = Some cpf ∧
         Forall (fun x : gmap string string => x !! "cpf"%string ≠ Some cpf) antes).
Proof.
  intros Hus Hcpf.
  destruct (filtrar_cabeca cpf us Hcpf) as (fs & Hfs & Hcase).
  exists (head fs). split.
  { unfold filtrar_usuario, mbind, M_bind, ligar.
    by rewrite (ler_usuarios_ok _ _ _ Hus), Hfs. }
  destruct Hcase as [[Hh Hno] | (antes & x & depois & Hh & -> & Hx & Hno)];
    rewrite Hh.
  - split; [done|]. intros u Hu. discriminate.
  - split.
    + split; [discriminate|]. intros Hall.
      apply Forall_app in Hall as [_ Hall].
      inversion Hall; subst. congruence.
    + intros u Hu. simplify_eq. by exists antes, depois.
Qed.

Lemma filtrar_sem_cpf (cpf : string) (antes : list (gmap string string))
    (u : gmap string string) (depois : list (gmap string string)) :
  Forall (fun x : gmap string string => is_Some (x !! "cpf"%string)) antes →
  u !! "cpf"%string = None →
  filtrar cpf (antes ++ u :: depois) = Raise (KeyError "cpf").
Proof.
  induction antes as [| x antes IH]; intros Hcpf Hu; simpl.
  - by rewrite Hu.
  - inversion Hcpf as [| ? ? [c Hc] Hcpf']; subst.
    by rewrite Hc, (IH Hcpf' Hu).
Qed.

(** X15. One user dict without the key ["cpf"] makes every lookup fail,
    also for identifiers registered before it: [filtrar_usuario] raises
    [KeyError], and [criar_conta] passes the error on after reading its
    line, creating no account and writing no audit line. *)
Theorem usuario_sem_cpf_impede_busca (agencia : string) (numero_conta : Z)
    (cpf : string) (resto : list string) (usuarios : Ref)
    (antes : list (gmap string string)) (u : gmap string string)
    (depois : list (gmap string string)) (w : World) :
  heap w !! usuarios = Some (OUsuarios (antes ++ u :: depois)) →
  Forall (fun x : gmap string string => is_Some (x !! "cpf"%string)) antes →
  u !! "cpf"%string = None →
  filtrar_usuario cpf usuarios w = (Raise (KeyError "cpf"), w) ∧
  (stdin w = cpf :: resto →
   criar_conta upper agencia numero_conta usuarios w =
     (Raise (KeyError "cpf"),
      com_stdin resto (com_linha (LPrompt "Informe o CPF do titular: ") w))).
Proof.
  intros Hus Hcpf Hu.
  pose proof (filtrar_sem_cpf cpf antes u depois Hcpf Hu) as Hf.
  split.
  - unfold filtrar_usuario, mbind, M_bind, ligar.
    by rewrite (ler_usuarios_ok _ _ _ Hus), Hf.
  - intros Hin. unfold criar_conta. apply registrar_raise.
    unfold criar_conta_func, filtrar_usuario, input, ler_linha, print,
      mbind, M_bind, ligar. simpl.
    rewrite Hin. rewrite (ler_usuarios_ok _ usuarios (antes ++ u :: depois)) by done.
    by rewrite Hf.
Qed.

(** X16. With no line left to read, [criar_conta] shows its prompt and
    raises [EOFError]: nothing is looked up, no account is created and no
    audit line is written. *)
Theorem criar_conta_sem_entrada (agencia : string) (numero_conta : Z)
    (usuarios : Ref) (w : World) :
  stdin w = [] →
  criar_conta upper agencia numero_conta usuarios w =
    (Raise EOFError, com_linha (LPrompt "Informe o CPF do titular: ") w).
Proof.
  intros Hin. unfold criar_conta. apply registrar_raise.
  unfold criar_conta_func, input, ler_linha, print, mbind, M_bind, ligar. simpl.
  by rewrite Hin.
Qed.

(** *** Opening accounts from the loop *)

(** The two ways [criar_conta] returns on a well-formed registry. *)
Lemma criar_conta_casos (agencia : string) (numero_conta : Z) (usuarios : Ref)
    (us : list (gmap string string)) (cpf : string) (resto : list string) (w : World) :
  heap w !! usuarios = Some (OUsuarios us) →
  stdin w = cpf :: resto →
  Forall (fun u : gmap string string => is_Some (u !! "cpf"%string)) us →
  (Forall (fun u : gmap string string => u !! "cpf"%string ≠ Some cpf) us ∧
   criar_conta upper agencia numero_conta usuarios w =
     (Ok None,
      registro upper "criar_conta"
        (com_linha LUsuarioNaoEncontrado
           (com_stdin resto (com_linha (LPrompt "Informe o CPF do titular: ") w)))))
  ∨ (∃ antes u depois,
       us = antes ++ u :: depois ∧ u !! "cpf"%string = Some cpf ∧
       Forall (fun x : gmap string string => x !! "cpf"%string ≠ Some cpf) antes ∧
       criar_conta upper agencia numero_conta usuarios w =
         (Ok (Some (<["agencia"%string := VTexto agencia]>
                   (<["numero_conta"%string := VNumero numero_conta]>
                   (<["usuario"%string := VUsuario u]>
                   (<["saldo"%string := VNumero 0]>
                   (<["extrato"%string := VLista (fresh (dom (heap w)))]> ∅)))))),
          registro upper "criar_conta"
            (com_heap (<[fresh (dom (heap w)) := OExtrato []]> (heap w))
               (com_linha LContaCriada
                  (com_stdin resto
                     (com_linha (LPrompt "Informe o CPF do titular: ") w)))))).
Proof.
  intros Hus Hin Hcpf.
  destruct (filtrar_cabeca cpf us Hcpf)
    as (fs & Hfs & [[Hh Hno] | (antes & u & depois & Hh & -> & Hu & Hno)]).
  - left. split; [done|]. unfold criar_conta. apply registrar_ok.
    unfold criar_conta_func, filtrar_usuario, input, ler_linha, print,
      mbind, M_bind, ligar. simpl.
    rewrite Hin. rewrite (ler_usuarios_ok _ usuarios us) by done.
    rewrite Hfs. simpl. by rewrite Hh.
  - right. exists antes, u, depois. repeat split; try done.
    unfold criar_conta. apply registrar_ok.
    unfold criar_conta_func, filtrar_usuario, input, ler_linha, print,
      mbind, M_bind, ligar. simpl.
    rewrite Hin. rewrite (ler_usuarios_ok _ usuarios (antes ++ u :: depois)) by done.
    rewrite Hfs. simpl. rewrite Hh. simpl.
    rewrite bool_decide_eq_true_2; [done|].
    intros ->. by rewrite lookup_empty in Hu.
Qed.

(** One turn of [nc] on a well-formed registry: either nothing is opened
    and the number stays, or one account carrying the number is appended
    to the directory and the number moves on.  The registry stays and one
    input line is used. *)
Lemma opcao_nc_casos (agencia : string) (numero_conta : Z) (usuarios contas : Ref)
    (us : list (gmap string string)) (cs : list (gmap string Valor))
    (cpf : string) (resto : list string) (w : World) :
  heap w !! usuarios = Some (OUsuarios us) →
  heap w !! contas = Some (OContas cs) →
  stdin w = cpf :: resto →
  Forall (fun u : gmap string string => is_Some (u !! "cpf"%string)) us →
  ∃ n' w' novas,
    opcao_nc upper agencia numero_conta usuarios contas w = (Ok n', w') ∧
    heap w' !! usuarios = Some (OUsuarios us) ∧
    heap w' !! contas = Some (OContas (cs ++ novas)) ∧
    stdin w' = resto ∧
    ((novas = [] ∧ n' = numero_conta ∧
      Forall (fun u : gmap string string => u !! "cpf"%string ≠ Some cpf) us)
     ∨ (∃ antes u depois conta,
          novas = [conta] ∧ n' = numero_conta + 1 ∧
          us = antes ++ u :: depois ∧ u !! "cpf"%string = Some cpf ∧
          Forall (fun x : gmap string string => x !! "cpf"%string ≠ Some cpf) antes ∧
          conta !! "numero_conta"%string = Some (VNumero numero_conta) ∧
          conta !! "usuario"%string = Some (VUsuario u) ∧
          conta !! "saldo"%string = Some (VNumero 0))).
Proof.
  intros Hus Hcs Hin Hcpf.
  destruct (criar_conta_casos agencia numero_conta usuarios us cpf resto w Hus Hin Hcpf)
    as [[Hno Hrun] | (antes & u & depois & -> & Hu & Hno & Hrun)];
    unfold opcao_nc, mbind, M_bind, ligar; rewrite Hrun.
  - eexists numero_conta, _, []. split; [reflexivity|]. simpl.
    rewrite app_nil_r. repeat split; try done. by left.
  - rewrite bool_decide_eq_true_2; last first.
    { intros Hsz. apply map_size_empty_iff in Hsz.
      by apply insert_non_empty in Hsz. }
    pose proof (fresh_ne _ _ _ Hcs) as Hne1.
    pose proof (fresh_ne _ _ _ Hus) as Hne2.
    assert (usuarios ≠ contas) as Hne3 by (intros ->; congruence).
    unfold append_conta, ler_contas, guardar, retornar, mbind, M_bind, ligar. simpl.
    rewrite lookup_insert_ne by done. rewrite Hcs. simpl.
    eexists _, _, [_]. split; [reflexivity|]. simpl.
    rewrite lookup_insert_eq, !lookup_insert_ne by done.
    repeat split; try done.
    right. eexists antes, u, depois, _. repeat split; try done.
Qed.

(** X17. A turn of [nc] for a registered identifier appends the new
    account at the end of the directory, and the listing then shows what
    it showed before followed by the new account with its number, the
    owner's name and balance 0; the next number is one more. *)
Theorem conta_aberta_e_listada (agencia : string) (numero_conta : Z)
    (usuarios contas : Ref) (antes : list (gmap string string))
    (u : gmap string string) (depois : list (gmap string string))
    (cs : list (gmap string Valor)) (tuplas : list (Valor * string * Valor))
    (cpf nome : string) (resto : list string) (n : nat) (w : World) :
  heap w !! usuarios = Some (OUsuarios (antes ++ u :: depois)) →
  heap w !! contas = Some (OContas cs) →
  stdin w = cpf :: resto →
  Forall (fun x : gmap string string => is_Some (x !! "cpf"%string))
    (antes ++ u :: depois) →
  Forall (fun x : gmap string string => x !! "cpf"%string ≠ Some cpf) antes →
  u !! "cpf"%string = Some cpf →
  u !! "nome"%string = Some nome →
  Forall2 resumo_de cs tuplas →
  (S (length cs) < n)%nat →
  ∃ w1 w2,
    opcao_nc upper agencia numero_conta usuarios contas w = (Ok (numero_conta + 1), w1) ∧
    percorrer n contas w1 =
      Some (Ok (tuplas ++ [(VNumero numero_conta, nome, VNumero 0)]), w2).
Proof.
  intros Hus Hcs Hin Hcpf Hno Hu Hnome Hall Hn.
  destruct (opcao_nc_casos agencia numero_conta usuarios contas _ cs cpf resto w
              Hus Hcs Hin Hcpf)
    as (n' & w1 & novas & Hrun & _ & Hcs1 & _ &
        [(-> & -> & Hnone) | (a' & u' & d' & conta & -> & -> & Heq & Hu' & Hno' & Hc1 & Hc2 & Hc3)]).
  - apply Forall_app in Hnone as [_ Hnone]. inversion Hnone; subst. congruence.
  - assert (u' = u) as ->.
    { clear -Heq Hno Hno' Hu Hu'. revert a' Heq Hno'.
      induction antes as [| x antes IH]; intros [| y a'] Heq Hno'; simpl in *.
      - by simplify_eq.
      - simplify_eq. inversion Hno'; subst. congruence.
      - simplify_eq. inversion Hno; subst. congruence.
      - simplify_eq. inversion Hno; subst. inversion Hno'; subst. eauto. }
    eexists w1, _. split; [done|].
    apply percorrer_ok; [done | | rewrite length_app; simpl; lia].
    apply Forall2_app; [done|]. constructor; [|constructor].
    split; [done|]. split; [|done]. by exists u.
Qed.

(** X18. Account numbers are handed out in sequence: after [k] turns of
    [nc], whatever identifiers are typed, the accounts added to the
    directory carry the numbers from the starting one upwards without gap
    or repeat, and the next number is the starting one plus the number of
    accounts added; refused turns use up no number. *)
Theorem numeros_em_sequencia (k : nat) (agencia : string) :
  ∀ (numero_conta : Z) (usuarios contas : Ref) (us : list (gmap string string))
    (cs : list (gmap string Valor)) (w : World),
    heap w !! usuarios = Some (OUsuarios us) →
    heap w !! contas = Some (OContas cs) →
    Forall (fun u : gmap string string => is_Some (u !! "cpf"%string)) us →
    (k ≤ length (stdin w))%nat →
    ∃ n' w' novas,
      abrir_contas upper k agencia numero_conta usuarios contas w = (Ok n', w') ∧
      heap w' !! contas = Some (OContas (cs ++ novas)) ∧
      (length novas ≤ k)%nat ∧
      n' = numero_conta + Z.of_nat (length novas) ∧
      ∀ i conta, novas !! i = Some conta →
                 conta !! "numero_conta"%string = Some (VNumero (numero_conta + Z.of_nat i)).
Proof.
  induction k as [| k IH]; intros numero_conta usuarios contas us cs w Hus Hcs Hcpf Hk.
  - exists numero_conta, w, []. simpl. rewrite app_nil_r.
    split; [done|]. split; [done|]. split; [lia|]. split; [lia|].
    intros i conta Hi. by rewrite lookup_nil in Hi.
  - destruct (stdin w) as [| cpf resto] eqn:Hin; [simpl in Hk; lia|].
    destruct (opcao_nc_casos agencia numero_conta usuarios contas us cs cpf resto w
                Hus Hcs Hin Hcpf)
      as (n1 & w1 & novas1 & Hrun & Hus1 & Hcs1 & Hin1 & Hcase).
    destruct (IH n1 usuarios contas us (cs ++ novas1) w1 Hus1 Hcs1 Hcpf)
      as (n2 & w2 & novas2 & Hrun2 & Hcs2 & Hlen2 & Hn2 & Hnum2).
    { rewrite Hin1. simpl in Hk. lia. }
    exists n2, w2, (novas1 ++ novas2). simpl.
    unfold mbind, M_bind, ligar. rewrite Hrun, Hrun2.
    rewrite app_assoc, length_app.
    destruct Hcase as [(-> & -> & _) | (a' & u' & d' & conta & -> & -> & _ & _ & _ & Hc1 & _)];
      simpl in *.
    + split; [done|]. split; [done|]. split; [lia|]. split; [lia|]. done.
    + split; [done|]. split; [done|]. split; [lia|]. split; [lia|].
      intros [| i] c Hi; simpl in Hi.
      * simplify_eq. by rewrite Z.add_0_r.
      * rewrite (Hnum2 i c Hi). do 2 f_equal. lia.
Qed.

(** *** Registering users *)

Lemma elevar_input_ok (p linha : string) (resto : list string) (t : Terminal) :
  stdin (base t) = linha :: resto →
  elevar (input p) t =
    (Ok linha,
     mkTerminal (com_stdin resto (limpo (base t))) (tela t ++ [SLinha (LPrompt p)])).
Proof.
  intros Hin. unfold elevar, input, print, ler_linha, mbind, M_bind, ligar. simpl.
  by rewrite Hin.
Qed.

Lemma elevar_input_eof (p : string) (t : Terminal) :
  stdin (base t) = [] →
  elevar (input p) t =
    (Raise EOFError, mkTerminal (limpo (base t)) (tela t ++ [SLinha (LPrompt p)])).
Proof.
  intros Hin. unfold elevar, input, print, ler_linha, mbind, M_bind, ligar. simpl.
  by rewrite Hin.
Qed.

Lemma elevar_filtrar_usuario (cpf : string) (usuarios : Ref)
    (us fs : list (gmap string string)) (t : Terminal) :
  heap (base t) !! usuarios = Some (OUsuarios us) →
  filtrar cpf us = Ok fs →
  elevar (filtrar_usuario cpf usuarios) t =
    (Ok (head fs), mkTerminal (limpo (base t)) (tela t)).
Proof.
  intros Hus Hfs.
  unfold elevar, filtrar_usuario, ler_usuarios, retornar, mbind, M_bind, ligar. simpl.
  rewrite Hus, Hfs. simpl. by rewrite app_nil_r.
Qed.

Lemma elevar_append_usuario (usuarios : Ref) (us : list (gmap string string))
    (u : gmap string string) (t : Terminal) :
  heap (base t) !! usuarios = Some (OUsuarios us) →
  elevar (append_usuario usuarios u) t =
    (Ok tt,
     mkTerminal (com_heap (<[usuarios := OUsuarios (us ++ [u])]> (heap (base t)))
                   (limpo (base t)))
       (tela t)).
Proof.
  intros Hus.
  unfold elevar, append_usuario, ler_usuarios, guardar, mbind, M_bind, ligar.
  cbn [limpo heap]. rewrite Hus. cbn [stdout limpo com_heap map]. by rewrite app_nil_r.
Qed.

Lemma t_ligar_ok {A B} (m : T A) (k : A → T B) (t t' : Terminal) (a : A) :
  m t = (Ok a, t') → (m ≫= k) t = k a t'.
Proof. intros H. unfold mbind, T_bind, T_ligar. by rewrite H. Qed.

Lemma t_ligar_raise {A B} (m : T A) (k : A → T B) (t t' : Terminal) (e : Excecao) :
  m t = (Raise e, t') → (m ≫= k) t = (Raise e, t').
Proof. intros H. unfold mbind, T_bind, T_ligar. by rewrite H. Qed.

Lemma verdadeiro_com_cpf (u : gmap string string) (cpf : string) :
  u !! "cpf"%string = Some cpf → verdadeiro (Some u) = true.
Proof.
  intros Hu. unfold verdadeiro. apply bool_decide_eq_true_2.
  intros ->. by rewrite lookup_empty in Hu.
Qed.

Lemma criar_usuario_existente (usuarios : Ref) (cpf : string)
    (antes : list (gmap string string)) (u : gmap string string)
    (depois : list (gmap string string)) (resto : list string) (t : Terminal) :
  heap (base t) !! usuarios = Some (OUsuarios (antes ++ u :: depois)) →
  Forall (fun x : gmap string string => is_Some (x !! "cpf"%string))
    (antes ++ u :: depois) →
  u !! "cpf"%string = Some cpf →
  Forall (fun x : gmap string string => x !! "cpf"%string ≠ Some cpf) antes →
  stdin (base t) = cpf :: resto →
  criar_usuario usuarios t =
    (Ok tt,
     mkTerminal (com_stdin resto (limpo (base t)))
       (tela t ++ [SLinha (LPrompt "Informe o CPF (somente números): ");
                   SAviso AUsuarioExiste])).
Proof.
  intros Hus Hcpf Hu Hno Hin.
  destruct (filtrar_primeiro cpf antes u depois Hcpf Hno Hu) as [fs Hfs].
  unfold criar_usuario.
  rewrite (t_ligar_ok _ _ _ _ _ (elevar_input_ok _ _ _ t Hin)).
  erewrite t_ligar_ok; [|by eapply elevar_filtrar_usuario].
  cbn [head]. rewrite (verdadeiro_com_cpf u cpf Hu).
  unfold aviso. cbn [base tela]. by rewrite <- app_assoc.
Qed.

Lemma criar_usuario_novo (usuarios : Ref) (us : list (gmap string string))
    (cpf nome data_nascimento endereco : string) (resto : list string) (t : Terminal) :
  heap (base t) !! usuarios = Some (OUsuarios us) →
  Forall (fun u : gmap string string => is_Some (u !! "cpf"%string)) us →
  Forall (fun u : gmap string string => u !! "cpf"%string ≠ Some cpf) us →
  stdin (base t) = cpf :: nome :: data_nascimento :: endereco :: resto →
  criar_usuario usuarios t =
    (Ok tt,
     mkTerminal
       (com_heap
          (<[usuarios :=
               OUsuarios
                 (us ++ [<["nome"%string := nome]>
                         (<["data_nascimento"%string := data_nascimento]>
                         (<["cpf"%string := cpf]>
                         (<["endereco"%string := endereco]> ∅)))])]>
             (heap (base t)))
          (com_stdin resto (limpo (base t))))
       (tela t ++
          [SLinha (LPrompt "Informe o CPF (somente números): ");
           SLinha (LPrompt "Informe o nome completo: ");
           SLinha (LPrompt "Data de nascimento (dd-mm-aaaa): ");
           SLinha (LPrompt "Endereço (logradouro, nº - bairro - cidade/UF): ");
           SAviso AUsuarioCriado])).
Proof.
  intros Hus Hcpf Hno Hin.
  unfold criar_usuario.
  rewrite (t_ligar_ok _ _ _ _ _ (elevar_input_ok _ _ _ t Hin)).
  erewrite t_ligar_ok;
    [|by eapply elevar_filtrar_usuario; [|by apply filtrar_nenhum]].
  cbn [head verdadeiro].
  erewrite t_ligar_ok; [|by apply elevar_input_ok].
  erewrite t_ligar_ok; [|by apply elevar_input_ok].
  erewrite t_ligar_ok; [|by apply elevar_input_ok].
  erewrite t_ligar_ok; [|by eapply elevar_append_usuario].
  unfold aviso. cbn [base tela]. by rewrite <- !app_assoc.
Qed.

(** A registration that runs out of input after the identifier. *)
Lemma criar_usuario_interrompido (usuarios : Ref) (us : list (gmap string string))
    (cpf : string) (resto : list string) (t : Terminal) :
  heap (base t) !! usuarios = Some (OUsuarios us) →
  Forall (fun u : gmap string string => is_Some (u !! "cpf"%string)) us →
  Forall (fun u : gmap string string => u !! "cpf"%string ≠ Some cpf) us →
  stdin (base t) = cpf :: resto →
  (length resto < 3)%nat →
  ∃ t', criar_usuario usuarios t = (Raise EOFError, t') ∧
        heap (base t') = heap (base t) ∧ stdin (base t') = [].
Proof.
  intros Hus Hcpf Hno Hin Hlen.
  unfold criar_usuario.
  rewrite (t_ligar_ok _ _ _ _ _ (elevar_input_ok _ _ _ t Hin)).
  erewrite t_ligar_ok;
    [|by eapply elevar_filtrar_usuario; [|by apply filtrar_nenhum]].
  cbn [head verdadeiro].
  destruct resto as [| nome [| data [| endereco resto]]]; [| | |simpl in Hlen; lia].
  - erewrite t_ligar_raise; [|by apply elevar_input_eof]. by eexists.
  - erewrite t_ligar_ok; [|by apply elevar_input_ok].
    erewrite t_ligar_raise; [|by apply elevar_input_eof]. by eexists.
  - erewrite t_ligar_ok; [|by apply elevar_input_ok].
    erewrite t_ligar_ok; [|by apply elevar_input_ok].
    erewrite t_ligar_raise; [|by apply elevar_input_eof]. by eexists.
Qed.

(** X19. [criar_usuario] on a registry whose users all carry an
    identifier.  For an identifier already registered it reads that one
    line, warns and leaves the registry as it is.  For a new identifier it
    asks, in this order, for name, birth date and address, and appends a
    user with these four fields at the end of the registry. *)
Theorem criar_usuario_spec (usuarios : Ref) (us : list (gmap string string))
    (cpf : string) (t : Terminal) :
  heap (base t) !! usuarios = Some (OUsuarios us) →
  Forall (fun u : gmap string string => is_Some (u !! "cpf"%string)) us →
  (∀ antes u depois resto,
     us = antes ++ u :: depois →
     u !! "cpf"%string = Some cpf →
     Forall (fun x : gmap string string => x !! "cpf"%string ≠ Some cpf) antes →
     stdin (base t) = cpf :: resto →
     criar_usuario usuarios t =
       (Ok tt,
        mkTerminal (com_stdin resto (limpo (base t)))
          (tela t ++ [SLinha (LPrompt "Informe o CPF (somente números): ");
                      SAviso AUsuarioExiste])))
  ∧ (∀ nome data_nascimento endereco resto,
       Forall (fun u : gmap string string => u !! "cpf"%string ≠ Some cpf) us →
       stdin (base t) = cpf :: nome :: data_nascimento :: endereco :: resto →
       criar_usuario usuarios t =
         (Ok tt,
          mkTerminal
            (com_heap
               (<[usuarios :=
                    OUsuarios
                      (us ++ [<["nome"%string := nome]>
                              (<["data_nascimento"%string := data_nascimento]>
                              (<["cpf"%string := cpf]>
                              (<["endereco"%string := endereco]> ∅)))])]>
                  (heap (base t)))
               (com_stdin resto (limpo (base t))))
            (tela t ++
               [SLinha (LPrompt "Informe o CPF (somente números): ");
                SLinha (LPrompt "Informe o nome completo: ");
                SLinha (LPrompt "Data de nascimento (dd-mm-aaaa): ");
                SLinha (LPrompt "Endereço (logradouro, nº - bairro - cidade/UF): ");
                SAviso AUsuarioCriado]))).
Proof.
  intros Hus Hcpf. split.
  - intros antes u depois resto -> Hu Hno Hin.
    by apply (criar_usuario_existente usuarios cpf antes u depois).
  - intros nome data_nascimento endereco resto Hno Hin. by apply criar_usuario_novo.
Qed.

Lemma filtrar_acrescimo (cpf : string) (us : list (gmap string string))
    (u : gmap string string) (c : string) :
  Forall (fun x : gmap string string => is_Some (x !! "cpf"%string)) us →
  u !! "cpf"%string = Some c →
  ∃ fs, filtrar cpf us = Ok fs ∧
        filtrar cpf (us ++ [u]) = Ok (fs ++ if bool_decide (c = cpf) then [u] else []).
Proof.
  induction us as [| x us IH]; intros Hcpf Hu; simpl.
  - exists []. rewrite Hu. split; [done|]. by destruct (bool_decide (c = cpf)).
  - inversion Hcpf as [| ? ? [cx Hcx] Hcpf']; subst.
    destruct (IH Hcpf' Hu) as (fs & Hfs & Hfs'). rewrite Hcx, Hfs, Hfs'.
    eexists. split; [done|]. by destruct (bool_decide (cx = cpf)).
Qed.

(** X20. Registering then looking up: after a new user has been
    registered, [filtrar_usuario] with the identifier typed answers that
    user, and its answer for every other identifier is what it was
    before. *)
Theorem usuario_criado_e_encontrado (usuarios : Ref) (us : list (gmap string string))
    (cpf nome data_nascimento endereco : string) (resto : list string) (t : Terminal) :
  heap (base t) !! usuarios = Some (OUsuarios us) →
  Forall (fun u : gmap string string => is_Some (u !! "cpf"%string)) us →
  Forall (fun u : gmap string string => u !! "cpf"%string ≠ Some cpf) us →
  stdin (base t) = cpf :: nome :: data_nascimento :: endereco :: resto →
  ∃ t',
    criar_usuario usuarios t = (Ok tt, t') ∧
    filtrar_usuario cpf usuarios (base t') =
      (Ok (Some (<["nome"%string := nome]>
                (<["data_nascimento"%string := data_nascimento]>
                (<["cpf"%string := cpf]>
                (<["endereco"%string := endereco]> ∅))))), base t') ∧
    ∀ outro, outro ≠ cpf →
      fst (filtrar_usuario outro usuarios (base t')) =
      fst (filtrar_usuario outro usuarios (base t)).
Proof.
  intros Hus Hcpf Hno Hin.
  eexists. split; [by apply (criar_usuario_novo usuarios us)|].
  set (novo := <["nome"%string := nome]> _).
  assert (novo !! "cpf"%string = Some cpf) as Hnovo by done.
  cbn [base]. split.
  - unfold filtrar_usuario, ler_usuarios, retornar, mbind, M_bind, ligar.
    cbn [heap com_heap]. rewrite lookup_insert_eq.
    destruct (filtrar_acrescimo cpf us novo cpf Hcpf Hnovo) as (fs & Hfs & ->).
    rewrite (filtrar_nenhum cpf us Hcpf Hno) in Hfs. simplify_eq.
    by rewrite bool_decide_eq_true_2.
  - intros outro Hne.
    unfold filtrar_usuario, ler_usuarios, retornar, mbind, M_bind, ligar.
    cbn [heap com_heap]. rewrite lookup_insert_eq, Hus.
    destruct (filtrar_acrescimo outro us novo cpf Hcpf Hnovo) as (fs & -> & ->).
    rewrite bool_decide_eq_false_2 by done. by rewrite app_nil_r.
Qed.

(** X21. Identifiers stay unique.  On a registry whose users all carry an
    identifier and no two the same one, [criar_usuario] leaves, whatever
    is typed and however it ends, a registry with the same property: the
    old one, or the old one with one user appended. *)
Theorem identificadores_unicos (usuarios : Ref) (us : list (gmap string string))
    (t : Terminal) :
  heap (base t) !! usuarios = Some (OUsuarios us) →
  Forall (fun u : gmap string string => is_Some (u !! "cpf"%string)) us →
  NoDup (map (fun u : gmap string string => u !! "cpf"%string) us) →
  ∃ us',
    heap (base (snd (criar_usuario usuarios t))) !! usuarios = Some (OUsuarios us') ∧
    Forall (fun u : gmap string string => is_Some (u !! "cpf"%string)) us' ∧
    NoDup (map (fun u : gmap string string => u !! "cpf"%string) us') ∧
    (us' = us ∨ ∃ u, us' = us ++ [u]).
Proof.
  intros Hus Hcpf Hnd.
  destruct (stdin (base t)) as [| cpf resto] eqn:Hin.
  { unfold criar_usuario.
    erewrite t_ligar_raise; [|by apply elevar_input_eof].
    exists us. cbn [snd base limpo heap]. eauto. }
  destruct (filtrar_cabeca cpf us Hcpf)
    as (fs & Hfs & [[Hh Hno] | (antes & u & depois & Hh & -> & Hu & Hno)]).
  - destruct (decide (length resto < 3)%nat) as [Hlen | Hlen].
    + destruct (criar_usuario_interrompido usuarios us cpf resto t Hus Hcpf Hno Hin Hlen)
        as (t' & -> & Hh' & _).
      exists us. cbn [snd]. rewrite Hh'. eauto.
    + destruct resto as [| nome [| data [| endereco resto]]]; try (simpl in Hlen; lia).
      rewrite (criar_usuario_novo usuarios us cpf nome data endereco resto t
                 Hus Hcpf Hno Hin).
      eexists. cbn [snd base com_heap heap]. rewrite lookup_insert_eq.
      split; [done|]. split; [|split; [|eauto]].
      * apply Forall_app. split; [done|]. repeat constructor. by eexists.
      * rewrite map_app. apply NoDup_app. split; [done|]. split.
        -- intros o Ho Ho'. simpl in Ho'. apply list_elem_of_singleton in Ho'.
           subst o. apply list_elem_of_fmap in Ho as (x & Hx & Hin').
           rewrite Forall_forall in Hno. apply (Hno x Hin'). by rewrite <- Hx.
        -- simpl. apply NoDup_singleton.
  - rewrite (criar_usuario_existente usuarios cpf antes u depois resto t
               Hus Hcpf Hu Hno Hin).
    exists (antes ++ u :: depois). cbn [snd base com_stdin limpo heap]. eauto.
Qed.

(** X22. A registration cut short by the end of the input registers
    nothing: when fewer than three lines follow a new identifier, the
    call raises [EOFError] with the store as it was and the input used
    up. *)
Theorem cadastro_interrompido (usuarios : Ref) (us : list (gmap string string))
    (cpf : string) (resto : list string) (t : Terminal) :
  heap (base t) !! usuarios = Some (OUsuarios us) →
  Forall (fun u : gmap string string => is_Some (u !! "cpf"%string)) us →
  Forall (fun u : gmap string string => u !! "cpf"%string ≠ Some cpf) us →
  stdin (base t) = cpf :: resto →
  (length resto < 3)%nat →
  ∃ t', criar_usuario usuarios t = (Raise EOFError, t') ∧
        heap (base t') = heap (base t) ∧ stdin (base t') = [].
Proof. apply criar_usuario_interrompido. Qed.



(** *** The report of the loop *)

Lemma elevar_gerador_yield g tr tipo i ts x j (t : Terminal) :
  heap (base t) !! g = Some (OGerador (GSuspenso tr tipo i)) →
  heap (base t) !! tr = Some (OExtrato ts) →
  procurar lower tipo (drop i ts) i = Some (x, j) →
  elevar (gerador_next lower g) t =
    (Ok x,
     mkTerminal (com_heap (<[g := OGerador (GSuspenso tr tipo j)]> (heap (base t)))
                   (limpo (base t)))
       (tela t)).
Proof.
  intros Hg Htr Hp. unfold elevar.
  rewrite (gerador_next_yield lower g tr tipo i ts x j (limpo (base t)) Hg Htr Hp).
  cbn [stdout limpo com_heap map]. by rewrite app_nil_r.
Qed.

Lemma elevar_gerador_fim g tr tipo i ts (t : Terminal) :
  heap (base t) !! g = Some (OGerador (GSuspenso tr tipo i)) →
  heap (base t) !! tr = Some (OExtrato ts) →
  procurar lower tipo (drop i ts) i = None →
  elevar (gerador_next lower g) t =
    (Raise StopIteration,
     mkTerminal (com_heap (<[g := OGerador GTerminado]> (heap (base t)))
                   (limpo (base t)))
       (tela t)).
Proof.
  intros Hg Htr Hp. unfold elevar.
  rewrite (gerador_next_fim lower g tr tipo i ts (limpo (base t)) Hg Htr Hp).
  cbn [stdout limpo com_heap map]. by rewrite app_nil_r.
Qed.

(** The loop that prints the report, from a generator suspended at [i]. *)
Lemma para_cada_gerador g tr tipo ts (n : nat) :
  ∀ i t,
    g ≠ tr →
    heap (base t) !! g = Some (OGerador (GSuspenso tr tipo i)) →
    heap (base t) !! tr = Some (OExtrato ts) →
    (length ts - i < n)%nat →
    para_cada n (gerador_next lower g)
      (fun transacao => aviso (ATransacao (fst transacao) (snd transacao))) t =
      Some (Ok tt,
            mkTerminal (com_heap (<[g := OGerador GTerminado]> (heap (base t)))
                          (limpo (base t)))
              (tela t ++
                 map (fun x : Tupla => SAviso (ATransacao (fst x) (snd x)))
                   (List.filter (aceita lower tipo) (drop i ts)))).
Proof.
  induction n as [| n IH]; intros i t Hne Hg Htr Hn; [lia|].
  cbn [para_cada].
  destruct (procurar lower tipo (drop i ts) i) as [[x j]|] eqn:Hp.
  - rewrite (elevar_gerador_yield _ _ _ _ _ _ _ _ Hg Htr Hp).
    destruct (procurar_some lower _ _ _ _ _ Hp) as [Hj Hf].
    rewrite length_drop in Hj.
    unfold aviso at 1. cbn [base tela].
    rewrite (IH j); cbn [base tela heap com_heap limpo].
    + rewrite Hf, drop_drop, insert_insert_eq.
      replace (i + (j - i))%nat with j by lia.
      unfold com_heap, limpo. cbn. by rewrite <- app_assoc.
    + done.
    + apply lookup_insert_eq.
    + by rewrite lookup_insert_ne.
    + lia.
  - rewrite (elevar_gerador_fim _ _ _ _ _ _ Hg Htr Hp).
    rewrite (procurar_none lower _ _ _ Hp). cbn [map]. by rewrite app_nil_r.
Qed.

(** X24. The report branch of the loop.  With an empty statement it only
    warns and reads nothing.  Otherwise it reads one line and prints,
    between header and footer, one line per entry in statement order: all
    entries when the line is empty, and for any other line the entries
    whose kind equals it once both are lower-cased.  The statement is left
    as it was. *)
Theorem opcao_r_spec (n : nat) (extrato : Ref) (ts : list Tupla) (t : Terminal) :
  heap (base t) !! extrato = Some (OExtrato ts) →
  (ts = [] →
     opcao_r lower n extrato t =
       Some (Ok tt, mkTerminal (limpo (base t)) (tela t ++ [SAviso ASemTransacoes])))
  ∧ (∀ linha resto,
       ts ≠ [] →
       stdin (base t) = linha :: resto →
       (length ts < n)%nat →
       ∃ t',
         opcao_r lower n extrato t = Some (Ok tt, t') ∧
         tela t' =
           tela t ++
             [SLinha (LPrompt "Filtrar por tipo (Depósito/Saque ou Enter para todos): ");
              SAviso ACabecalho] ++
             map (fun x : Tupla => SAviso (ATransacao (fst x) (snd x)))
               (if bool_decide (linha = ""%string) then ts
                else List.filter
                       (fun x : Tupla => bool_decide (lower (fst x) = lower linha)) ts) ++
             [SAviso ARodape] ∧
         stdin (base t') = resto ∧
         heap (base t') !! extrato = Some (OExtrato ts)).
Proof.
  intros Hts. split.
  - intros ->. unfold opcao_r, elevar, ler_extrato. cbn [limpo heap].
    rewrite Hts. unfold aviso. cbn. by rewrite app_nil_r.
  - intros linha resto Hne Hin Hn.
    unfold opcao_r. unfold elevar at 1. unfold ler_extrato. cbn [limpo heap].
    rewrite Hts. destruct ts as [| t0 ts']; [done|].
    cbn [stdout map]. rewrite app_nil_r.
    set (t1 := mkTerminal _ (tela t)).
    assert (stdin (base t1) = linha :: resto) as Hin1 by done.
    erewrite t_ligar_ok; [|by apply elevar_input_ok].
    unfold mbind at 1, T_bind, T_ligar, aviso at 1. cbn [base tela].
    unfold elevar at 1, gerar_relatorio, novo. cbn [base limpo heap com_stdin stdout map com_heap].
    set (tipo := if bool_decide (linha = ""%string) then None else Some linha).
    set (g := fresh (dom (heap (base t)))).
    assert (g ≠ extrato) as Hg by (by eapply fresh_ne).
    rewrite (para_cada_gerador g extrato tipo (t0 :: ts') n 0);
      cbn [base tela heap com_heap limpo].
    + eexists. split; [reflexivity|]. unfold aviso. cbn [base tela heap com_heap].
      split; [|split; [done|by rewrite !lookup_insert_ne]].
      rewrite drop_0, app_nil_r, <- !app_assoc. cbn [app]. do 3 f_equal.
      subst tipo. destruct (bool_decide (linha = ""%string)); cbn [aceita].
      * by rewrite filter_todos.
      * done.
    + done.
    + apply lookup_insert_eq.
    + by rewrite lookup_insert_ne.
    + simpl. simpl in Hn. lia.
Qed.

End Extensoes.

(** * Runs of the further properties *)

Lemma saldo_nunca_negativo_witness :
  ∃ c' w', executar Exemplo.upper Exemplo.dia Exemplo.caixa0 Exemplo.mundo = (Ok c', w') ∧
           0 <= cx_saldo c'.
Proof.
  apply (saldo_nunca_negativo Exemplo.upper Exemplo.dia Exemplo.caixa0 Exemplo.mundo []);
    [reflexivity | simpl; lia].
Defined.

Lemma numero_saques_limitado_witness :
  ∃ c' w', executar Exemplo.upper Exemplo.dia Exemplo.caixa0 Exemplo.mundo = (Ok c', w') ∧
           0 <= cx_numero_saques c' <= 3.
Proof.
  apply (numero_saques_limitado Exemplo.upper Exemplo.dia 3 Exemplo.caixa0 Exemplo.mundo []);
    [repeat constructor | reflexivity | simpl; lia].
Defined.

Lemma extrato_so_cresce_witness :
  ∃ c' w' novos,
    executar Exemplo.upper Exemplo.dia Exemplo.caixa0 Exemplo.mundo = (Ok c', w') ∧
    heap w' !! Exemplo.r_extrato = Some (OExtrato ([] ++ novos)) ∧
    Forall (fun t : Tupla =>
              (fst t = "Depósito"%string ∧ snd t > 0) ∨
              (fst t = "Saque"%string ∧ snd t < 0)) novos.
Proof.
  apply (extrato_so_cresce Exemplo.upper Exemplo.dia Exemplo.caixa0 Exemplo.mundo []).
  reflexivity.
Defined.


Lemma listagem_alheia_ao_saldo_witness :
  ∃ c' w' w1 w2,
    percorrer 2 Exemplo.r_contas Exemplo.mundo_com_conta =
      Some (Ok [Exemplo.resumo_da_ana], w1) ∧
    executar Exemplo.upper Exemplo.dia Exemplo.caixa0 Exemplo.mundo_com_conta = (Ok c', w') ∧
    percorrer 2 Exemplo.r_contas w' = Some (Ok [Exemplo.resumo_da_ana], w2).
Proof.
  apply (listagem_alheia_ao_saldo Exemplo.upper Exemplo.dia Exemplo.caixa0
           Exemplo.mundo_com_conta [] Exemplo.r_contas [Exemplo.conta_da_ana]).
  - reflexivity.
  - reflexivity.
  - repeat constructor. exists Exemplo.ana. split; reflexivity.
  - simpl. lia.
Defined.

Lemma sacar_veredito_witness :
  ∃ l r w1,
    sacar Exemplo.upper (mkSacar 70 (-5) Exemplo.r_extrato 500 0 3) Exemplo.mundo =
      (Ok r, registro Exemplo.upper "sacar" (com_linha l w1)) ∧
    (l = LSaqueOk (-5) ↔ -5 > 0 ∧ -5 <= 70 ∧ -5 <= 500 ∧ 0 < 3) ∧
    (l = LValorInvalido ↔ -5 <= 0 ∧ -5 <= 70 ∧ -5 <= 500 ∧ 0 < 3).
Proof.
  apply (sacar_veredito Exemplo.upper (mkSacar 70 (-5) Exemplo.r_extrato 500 0 3)
           Exemplo.mundo []).
  reflexivity.
Defined.


Lemma gerador_ve_acrescimos_witness :
  ∃ w1 w2,
    append Exemplo.r_extrato ("Saque"%string, -5) Amostra.mundo_cheio = (Ok tt, w1) ∧
    consumir 4 (gerador_next Exemplo.lower Amostra.r_gerador) w1 =
      Some (Ok (List.filter (aceita Exemplo.lower (Some "SAQUE"%string))
                  (drop 1 (Exemplo.movimentos ++ [("Saque"%string, -5)]))), w2).
Proof.
  apply (gerador_ve_acrescimos Exemplo.lower Amostra.r_gerador Exemplo.r_extrato
           (Some "SAQUE"%string) 1 Exemplo.movimentos ("Saque"%string, -5) 3
           Amostra.mundo_cheio).
  - discriminate.
  - reflexivity.
  - reflexivity.
  - simpl. lia.
Defined.

Lemma gerador_terminado_nao_volta_witness :
  ∃ xs w1 w2,
    consumir 3 (gerador_next Exemplo.lower Amostra.r_gerador) Amostra.mundo_cheio =
      Some (Ok xs, w1) ∧
    append Exemplo.r_extrato ("Saque"%string, -5) w1 = (Ok tt, w2) ∧
    gerador_next Exemplo.lower Amostra.r_gerador w2 = (Raise StopIteration, w2).
Proof.
  apply (gerador_terminado_nao_volta Exemplo.lower Amostra.r_gerador Exemplo.r_extrato
           (Some "SAQUE"%string) 1 Exemplo.movimentos ("Saque"%string, -5) 3
           Amostra.mundo_cheio).
  - discriminate.
  - reflexivity.
  - reflexivity.
  - simpl. lia.
Defined.

Lemma iterador_de_uma_passagem_witness :
  ∃ w1 w2,
    consumir 2 (ContasIterator.__next__ Exemplo.r_iterador) Exemplo.mundo_com_conta =
      Some (Ok (drop 0 [Exemplo.resumo_da_ana]), w1) ∧
    heap w1 !! Exemplo.r_iterador = Some (OContasIterator Exemplo.r_contas 1) ∧
    percorrer 2 Exemplo.r_contas w1 = Some (Ok [Exemplo.resumo_da_ana], w2).
Proof.
  apply (iterador_de_uma_passagem Exemplo.r_iterador Exemplo.r_contas 0
           [Exemplo.conta_da_ana] [Exemplo.resumo_da_ana] 2 Exemplo.mundo_com_conta).
  - discriminate.
  - reflexivity.
  - reflexivity.
  - repeat constructor. exists Exemplo.ana. split; reflexivity.
  - simpl. lia.
  - simpl. lia.
Defined.

Lemma conta_incompleta_interrompe_witness :
  ∃ e,
    e ≠ StopIteration ∧
    ContasIterator.__next__ Exemplo.r_iterador Amostra.mundo_com_conta_sem_saldo =
      (Raise e,
       com_heap (<[Exemplo.r_iterador := OContasIterator Exemplo.r_contas 1]>
                   (heap Amostra.mundo_com_conta_sem_saldo))
         Amostra.mundo_com_conta_sem_saldo) ∧
    consumir 2 (ContasIterator.__next__ Exemplo.r_iterador)
      Amostra.mundo_com_conta_sem_saldo =
      Some (Raise e,
            com_heap (<[Exemplo.r_iterador := OContasIterator Exemplo.r_contas 1]>
                        (heap Amostra.mundo_com_conta_sem_saldo))
              Amostra.mundo_com_conta_sem_saldo).
Proof.
  apply (conta_incompleta_interrompe Exemplo.r_iterador Exemplo.r_contas 0
           [Amostra.conta_sem_saldo] Amostra.conta_sem_saldo 1
           Amostra.mundo_com_conta_sem_saldo).
  - reflexivity.
  - reflexivity.
  - reflexivity.
  - intros t (_ & _ & Hs). vm_compute in Hs. discriminate.
Defined.

Lemma filtrar_usuario_spec_witness :
  ∃ o,
    filtrar_usuario "111" Exemplo.r_usuarios Exemplo.mundo = (Ok o, Exemplo.mundo) ∧
    (o = None ↔
       Forall (fun u : gmap string string => u !! "cpf"%string ≠ Some "111"%string)
         [Exemplo.ana]) ∧
    (∀ u, o = Some u →
       ∃ antes depois,
         [Exemplo.ana] = antes ++ u :: depois ∧ u !! "cpf"%string = Some "111"%string ∧
         Forall (fun x : gmap string string => x !! "cpf"%string ≠ Some "111"%string) antes).
Proof.
  apply (filtrar_usuario_spec "111" Exemplo.r_usuarios [Exemplo.ana] Exemplo.mundo).
  - reflexivity.
  - repeat constructor. by eexists.
Defined.

Lemma usuario_sem_cpf_impede_busca_witness :
  filtrar_usuario "111" Exemplo.r_usuarios Amostra.mundo_com_usuario_sem_cpf =
    (Raise (KeyError "cpf"), Amostra.mundo_com_usuario_sem_cpf) ∧
  fst (criar_conta Exemplo.upper "0001" 1 Exemplo.r_usuarios
         Amostra.mundo_com_usuario_sem_cpf) = Raise (KeyError "cpf").
Proof.
  destruct (usuario_sem_cpf_impede_busca Exemplo.upper "0001" 1 "111" ["222"%string]
              Exemplo.r_usuarios [Exemplo.ana] Amostra.sem_cpf []
              Amostra.mundo_com_usuario_sem_cpf eq_refl
              ltac:(repeat constructor; by eexists) eq_refl) as [H1 H2].
  split; [exact H1|]. by rewrite (H2 eq_refl).
Defined.

Lemma criar_conta_sem_entrada_witness :
  criar_conta Exemplo.upper "0001" 1 Exemplo.r_usuarios (com_stdin [] Exemplo.mundo) =
    (Raise EOFError,
     com_linha (LPrompt "Informe o CPF do titular: ") (com_stdin [] Exemplo.mundo)).
Proof.
  apply (criar_conta_sem_entrada Exemplo.upper "0001" 1 Exemplo.r_usuarios
           (com_stdin [] Exemplo.mundo)).
  reflexivity.
Defined.

Lemma conta_aberta_e_listada_witness :
  ∃ w1 w2,
    opcao_nc Exemplo.upper "0001" 1 Exemplo.r_usuarios Exemplo.r_contas Exemplo.mundo =
      (Ok (1 + 1), w1) ∧
    percorrer 2 Exemplo.r_contas w1 =
      Some (Ok ([] ++ [(VNumero 1, "Ana"%string, VNumero 0)]), w2).
Proof.
  apply (conta_aberta_e_listada Exemplo.upper "0001" 1 Exemplo.r_usuarios Exemplo.r_contas
           [] Exemplo.ana [] [] [] "111" "Ana" ["222"%string] 2 Exemplo.mundo).
  - reflexivity.
  - reflexivity.
  - reflexivity.
  - repeat constructor. by eexists.
  - constructor.
  - reflexivity.
  - reflexivity.
  - constructor.
  - simpl. lia.
Defined.

Lemma numeros_em_sequencia_witness :
  ∃ n' w' novas,
    abrir_contas Exemplo.upper 2 "0001" 1 Exemplo.r_usuarios Exemplo.r_contas Exemplo.mundo =
      (Ok n', w') ∧
    heap w' !! Exemplo.r_contas = Some (OContas ([] ++ novas)) ∧
    (length novas ≤ 2)%nat ∧
    n' = 1 + Z.of_nat (length novas) ∧
    ∀ i conta, novas !! i = Some conta →
               conta !! "numero_conta"%string = Some (VNumero (1 + Z.of_nat i)).
Proof.
  apply (numeros_em_sequencia Exemplo.upper 2 "0001" 1 Exemplo.r_usuarios Exemplo.r_contas
           [Exemplo.ana] [] Exemplo.mundo).
  - reflexivity.
  - reflexivity.
  - repeat constructor. by eexists.
  - simpl. lia.
Defined.

Lemma criar_usuario_spec_witness :
  fst (criar_usuario Exemplo.r_usuarios Amostra.terminal_repetido) = Ok tt ∧
  tela (snd (criar_usuario Exemplo.r_usuarios Amostra.terminal_repetido)) =
    [SLinha (LPrompt "Informe o CPF (somente números): "); SAviso AUsuarioExiste] ∧
  heap (base (snd (criar_usuario Exemplo.r_usuarios Amostra.terminal))) !! Exemplo.r_usuarios =
    Some (OUsuarios [Exemplo.ana; Amostra.bia]).
Proof.
  destruct (criar_usuario_spec Exemplo.r_usuarios [Exemplo.ana] "111"
              Amostra.terminal_repetido eq_refl
              ltac:(repeat constructor; by eexists)) as [H1 _].
  destruct (criar_usuario_spec Exemplo.r_usuarios [Exemplo.ana] "333"
              Amostra.terminal eq_refl
              ltac:(repeat constructor; by eexists)) as [_ H2].
  rewrite (H1 [] Exemplo.ana [] ["222"%string] eq_refl eq_refl ltac:(constructor) eq_refl).
  rewrite (H2 "Bia"%string "02-02-1992"%string "Rua B, 2 - Centro - Luanda/LU"%string
             ["333"%string] ltac:(repeat constructor; discriminate) eq_refl).
  split; [reflexivity|]. split; reflexivity.
Defined.

Lemma usuario_criado_e_encontrado_witness :
  ∃ t',
    criar_usuario Exemplo.r_usuarios Amostra.terminal = (Ok tt, t') ∧
    filtrar_usuario "333" Exemplo.r_usuarios (base t') = (Ok (Some Amostra.bia), base t') ∧
    ∀ outro, outro ≠ "333"%string →
      fst (filtrar_usuario outro Exemplo.r_usuarios (base t')) =
      fst (filtrar_usuario outro Exemplo.r_usuarios (base Amostra.terminal)).
Proof.
  apply (usuario_criado_e_encontrado Exemplo.r_usuarios [Exemplo.ana] "333" "Bia"
           "02-02-1992" "Rua B, 2 - Centro - Luanda/LU" ["333"%string] Amostra.terminal).
  - reflexivity.
  - repeat constructor. by eexists.
  - repeat constructor. discriminate.
  - reflexivity.
Defined.

Lemma identificadores_unicos_witness :
  ∃ us',
    heap (base (snd (criar_usuario Exemplo.r_usuarios Amostra.terminal))) !!
      Exemplo.r_usuarios = Some (OUsuarios us') ∧
    Forall (fun u : gmap string string => is_Some (u !! "cpf"%string)) us' ∧
    NoDup (map (fun u : gmap string string => u !! "cpf"%string) us') ∧
    (us' = [Exemplo.ana] ∨ ∃ u, us' = [Exemplo.ana] ++ [u]).
Proof.
  apply (identificadores_unicos Exemplo.r_usuarios [Exemplo.ana] Amostra.terminal).
  - reflexivity.
  - repeat constructor. by eexists.
  - repeat constructor. intros H. inversion H.
Defined.

Lemma cadastro_interrompido_witness :
  ∃ t', criar_usuario Exemplo.r_usuarios Amostra.terminal_curto = (Raise EOFError, t') ∧
        heap (base t') = heap (base Amostra.terminal_curto) ∧ stdin (base t') = [].
Proof.
  apply (cadastro_interrompido Exemplo.r_usuarios [Exemplo.ana] "333" ["Bia"%string]
           Amostra.terminal_curto).
  - reflexivity.
  - repeat constructor. by eexists.
  - repeat constructor. discriminate.
  - reflexivity.
  - simpl. lia.
Defined.


Lemma opcao_r_spec_witness :
  opcao_r Exemplo.lower 4 Exemplo.r_extrato Amostra.terminal =
    Some (Ok tt,
          mkTerminal (limpo (base Amostra.terminal)) ([] ++ [SAviso ASemTransacoes])) ∧
  ∃ t',
    opcao_r Exemplo.lower 4 Exemplo.r_extrato Amostra.terminal_com_extrato =
      Some (Ok tt, t') ∧
    tela t' =
      [SLinha (LPrompt "Filtrar por tipo (Depósito/Saque ou Enter para todos): ");
       SAviso ACabecalho;
       SAviso (ATransacao "Saque" (-30)); SAviso (ATransacao "Saque" (-20));
       SAviso ARodape].
Proof.
  split.
  - apply (proj1 (opcao_r_spec Exemplo.lower 4 Exemplo.r_extrato [] Amostra.terminal
                    eq_refl)).
    reflexivity.
  - destruct (proj2 (opcao_r_spec Exemplo.lower 4 Exemplo.r_extrato Exemplo.movimentos
                       Amostra.terminal_com_extrato eq_refl)
                "SAQUE"%string [] ltac:(discriminate) eq_refl ltac:(simpl; lia))
      as (t' & Hrun & Htela & _).
    exists t'. split; [exact Hrun|]. rewrite Htela. reflexivity.
Defined.
